(** * MOTNDP: the multi-objective transit-line environment of [motndp/motndp.py]

    A shallow embedding of the class [MOTNDP] and a verification of its
    step, reward and action-mask contract.

    - Python ints are [Z]; numpy [int64] values are [Z] with the wrap-around
      of their arithmetic written out ([wrap64]).
    - numpy [float64] values are an abstract type [F] with the operations
      the code applies to them ([Float64]); no property of the rounding is
      built in, the laws a theorem needs are named where it needs them.
    - numpy 2-d arrays are lists of rows; their elementwise product
      ([mmul]) broadcasts as numpy does and raises ValueError when the
      shapes do not fit. binary64 itself ([binary64], the primitive floats)
      is used where overflow and nan matter.
    - The instance attributes of [MOTNDP] are the record [Env]; methods are
      computations in a state-and-exception monad [M], so that an exception
      raised half-way leaves the attributes assigned so far in place.
    - [City] (module [motndp.city]) and the random generator of gymnasium
      are collaborators of the class: they are taken as parameters. *)

From Stdlib Require Import ZArith QArith Lia List.
From Stdlib Require Import PrimFloat.
From stdpp Require Import base tactics option list.
Import ListNotations.
Local Open Scope Z_scope.

(** ** Numbers *)

(** The float64 operations used by the reward computation and by the
    one-hot location vector. [fle] is the comparison [<=] and [ffinite]
    says that a value is a finite number (neither an infinity nor nan). *)
Class Float64 (F : Type) : Type := {
  fzero : F;
  fone : F;
  fadd : F -> F -> F;
  fmul : F -> F -> F;
  fdiv : F -> F -> F;
  fle : F -> F -> Prop;
  ffinite : F -> Prop
}.

(** Laws of an ordered arithmetic under which the reward bound holds. They
    are stated for values at least 0, and for finite values where an
    infinity would break them, so that they are the laws of a correctly
    rounded binary arithmetic as well: sums of values at least 0 are
    monotone (also when they overflow), multiplying a finite value by 0 or
    by 1 is exact, and a quotient [x / y] with [0 <= x <= y] and [y] finite
    and not 0 rounds into [0, 1]. Exact rational arithmetic satisfies
    them ([Q_laws] below). *)
Class Float64Laws (F : Type) `{Float64 F} : Prop := {
  fle_zero_zero : fle fzero fzero;
  fle_trans : forall x y z, fle x y -> fle y z -> fle x z;
  fzero_le_fone : fle fzero fone;
  fadd_mono : forall a b c d,
    fle fzero a -> fle a b -> fle fzero c -> fle c d ->
    fle (fadd a c) (fadd b d);
  fadd_zero_zero : fadd fzero fzero = fzero;
  fmul_one_le : forall x, fle fzero x -> fle (fmul x fone) x;
  fmul_one_ge : forall x, fle fzero x -> fle fzero (fmul x fone);
  fmul_zero_le : forall x, ffinite x -> fle (fmul x fzero) fzero;
  fmul_zero_ge : forall x, ffinite x -> fle fzero (fmul x fzero);
  fdiv_unit : forall x y,
    fle fzero x -> fle x y -> ~ fle y fzero -> ffinite y ->
    fle fzero (fdiv x y) /\ fle (fdiv x y) fone
}.

(** numpy's int64: the value of [a + b] is reduced into [-2^63, 2^63). *)
Definition wrap64 (z : Z) : Z := (z + 2 ^ 63) mod 2 ^ 64 - 2 ^ 63.
Definition add64 (a b : Z) : Z := wrap64 (a + b).

(** ** Python and numpy helpers *)

Inductive exn : Set :=
| AssertionError
| IndexError
| ValueError
| AttributeError
| LibraryError.

(** Position selected by index [i] in a sequence of length [n]: a negative
    index counts from the end, anything outside [-n, n) is an IndexError. *)
Definition py_index (n : nat) (i : Z) : option nat :=
  if (0 <=? i) && (i <? Z.of_nat n) then Some (Z.to_nat i)
  else if (- Z.of_nat n <=? i) && (i <? 0) then Some (Z.to_nat (i + Z.of_nat n))
  else None.

(** [a[i]] *)
Definition py_getitem {A} (a : list A) (i : Z) : exn + A :=
  match py_index (length a) i with
  | Some p => match a !! p with Some x => inr x | None => inl IndexError end
  | None => inl IndexError
  end.

(** [a[i] = x] *)
Definition py_setitem {A} (a : list A) (i : Z) (x : A) : exn + list A :=
  match py_index (length a) i with
  | Some p => inr (<[p := x]> a)
  | None => inl IndexError
  end.

(** [enumerate(l)] *)
Definition enumerate {A} (l : list A) : list (nat * A) :=
  imap (fun i x => (i, x)) l.

(** [np.sum] of an integer array. *)
Definition np_sum (a : list Z) : Z := fold_left Z.add a 0.

Section Arrays.
Context {F : Type} `{Float64 F}.

(** [np.zeros(n)]; a negative dimension is a ValueError. *)
Definition np_zeros (n : Z) : exn + list F :=
  if n <? 0 then inl ValueError else inr (repeat fzero (Z.to_nat n)).

(** [a.sum()] of a 1-d array. *)
Definition fsum (a : list F) : F := fold_left fadd a fzero.

(** [m.sum()]: the sum of all entries of a 2-d array. *)
Definition msum (m : list (list F)) : F := fsum (concat m).

(** The shape of a 2-d array: its rows, and the entries of its first row.
    An array without rows is taken to have no columns. *)
Definition shape (m : list (list F)) : nat * nat :=
  (length m, match m with r :: _ => length r | [] => 0%nat end).

(** Every row has [c] entries: the nest of lists is an array. *)
Definition rectangular (c : nat) (m : list (list F)) : bool :=
  forallb (fun r => Nat.eqb (length r) c) m.

(** numpy's broadcasting rule for one axis: the two lengths agree, or one
    of them is 1; the axis of length 1 is stretched to the other length. *)
Definition broadcastable (n m : nat) : bool :=
  Nat.eqb n m || Nat.eqb n 1 || Nat.eqb m 1.

Definition broadcast_dim (n m : nat) : nat := if Nat.eqb n 1 then m else n.

Definition stretch {A} (n : nat) (l : list A) : list A :=
  match l with
  | [x] => repeat x n
  | _ => l
  end.

(** [g * mask] on two 2-d arrays: the elementwise product after
    broadcasting, a ValueError when the shapes cannot be broadcast
    together. *)
Definition mmul (g mask : list (list F)) : exn + list (list F) :=
  let sg := shape g in
  let sm := shape mask in
  if rectangular (snd sg) g && rectangular (snd sm) mask
     && broadcastable (fst sg) (fst sm) && broadcastable (snd sg) (snd sm)
  then
    let r := broadcast_dim (fst sg) (fst sm) in
    let c := broadcast_dim (snd sg) (snd sm) in
    inr (zip_with (fun a b => zip_with fmul (stretch c a) (stretch c b))
                  (stretch r g) (stretch r mask))
  else inl ValueError.
End Arrays.

(** ** The collaborators *)

(** The attributes and methods of [motndp.city.City] that [MOTNDP] uses.
    [group_od_mx] and [groups] are [None] when the city was built without a
    groups file. [grid_to_vector] is applied to one coordinate pair; on a
    batch of pairs it is applied to each. *)
Record City {F : Type} : Type := {
  grid_x_size : Z;
  grid_y_size : Z;
  grid_size : Z;
  grid_to_vector : Z * Z -> Z;
  satisfied_od_mask : Z * Z -> list (list F);
  group_od_mx : option (list (list (list F)));
  groups : option (list F)
}.
Arguments City : clear implicits.

(** gymnasium's seeding and the numpy generator behind [self.np_random]:
    [seeding_np_random seed] builds a generator from a seed (or refuses the
    seed), [integers g low high] draws from a generator and advances it. *)
Class Generator (Rng : Type) : Type := {
  seeding_np_random : Z -> exn + Rng;
  integers : Rng -> Z -> Z -> (exn + Z) * Rng
}.

(** ** The environment *)

(** The [loc] argument of [reset]: absent, a tuple of two coordinates, or a
    numpy array of two coordinates. *)
Inductive start_loc : Set :=
| LocNone
| LocTuple (x y : Z)
| LocArray (x y : Z).

Record Observation {F : Type} : Type := {
  location : Z * Z;
  location_vid : Z;
  location_vector : list F
}.
Arguments Observation : clear implicits.

Record Info : Type := {
  segments : list (Z * Z);
  info_action_mask : list Z
}.

(** The attributes of a [MOTNDP] instance. The three [_agent_location]
    attributes do not exist before the first [reset] ([None]). [od_queries]
    is a history of the calls made to [city.satisfied_od_mask]; the code
    never reads it. *)
#[projections(primitive)]
Record Env {F Rng : Type} : Type := {
  city : City F;
  nr_stations : Z;
  stations_placed : Z;
  covered_cells_vid : list Z;
  covered_cells_gid : list (Z * Z);
  covered_segments : list (Z * Z);
  action_mask : list Z;
  nr_groups : Z;
  _agent_location : option (Z * Z);
  _agent_location_vid : option Z;
  _agent_location_vector : option (list F);
  np_random : Rng;
  od_queries : list (Z * Z)
}.
Arguments Env : clear implicits.

(** ** State and exceptions *)

(** A method body: it reads and assigns attributes, and either returns a
    value or raises; the attributes assigned before a raise stay assigned. *)
Definition M (F Rng A : Type) : Type := Env F Rng -> (exn + A) * Env F Rng.

Section Monad.
Context {F Rng : Type}.

Definition ret {A} (a : A) : M F Rng A := fun e => (inr a, e).

Definition raise {A} (x : exn) : M F Rng A := fun e => (inl x, e).

Definition bind {A B} (m : M F Rng A) (k : A -> M F Rng B) : M F Rng B :=
  fun e => match m e with
           | (inr a, e') => k a e'
           | (inl x, e') => (inl x, e')
           end.

Definition get : M F Rng (Env F Rng) := fun e => (inr e, e).

Definition modify (f : Env F Rng -> Env F Rng) : M F Rng unit :=
  fun e => (inr tt, f e).

(** A pure computation that may raise. *)
Definition lift {A} (r : exn + A) : M F Rng A := fun e => (r, e).

(** Reading an attribute that may not exist yet. *)
Definition attr {A} (o : option A) : M F Rng A :=
  match o with Some a => ret a | None => raise AttributeError end.

Definition set_stations_placed (v : Z) (e : Env F Rng) : Env F Rng :=
{| city := city e;
   nr_stations := nr_stations e;
   stations_placed := v;
   covered_cells_vid := covered_cells_vid e;
   covered_cells_gid := covered_cells_gid e;
   covered_segments := covered_segments e;
   action_mask := action_mask e;
   nr_groups := nr_groups e;
   _agent_location := _agent_location e;
   _agent_location_vid := _agent_location_vid e;
   _agent_location_vector := _agent_location_vector e;
   np_random := np_random e;
   od_queries := od_queries e |}.

Definition set_covered_cells_vid (v : list Z) (e : Env F Rng) : Env F Rng :=
{| city := city e;
   nr_stations := nr_stations e;
   stations_placed := stations_placed e;
   covered_cells_vid := v;
   covered_cells_gid := covered_cells_gid e;
   covered_segments := covered_segments e;
   action_mask := action_mask e;
   nr_groups := nr_groups e;
   _agent_location := _agent_location e;
   _agent_location_vid := _agent_location_vid e;
   _agent_location_vector := _agent_location_vector e;
   np_random := np_random e;
   od_queries := od_queries e |}.

Definition set_covered_cells_gid (v : list (Z * Z)) (e : Env F Rng) : Env F Rng :=
{| city := city e;
   nr_stations := nr_stations e;
   stations_placed := stations_placed e;
   covered_cells_vid := covered_cells_vid e;
   covered_cells_gid := v;
   covered_segments := covered_segments e;
   action_mask := action_mask e;
   nr_groups := nr_groups e;
   _agent_location := _agent_location e;
   _agent_location_vid := _agent_location_vid e;
   _agent_location_vector := _agent_location_vector e;
   np_random := np_random e;
   od_queries := od_queries e |}.

Definition set_covered_segments (v : list (Z * Z)) (e : Env F Rng) : Env F Rng :=
{| city := city e;
   nr_stations := nr_stations e;
   stations_placed := stations_placed e;
   covered_cells_vid := covered_cells_vid e;
   covered_cells_gid := covered_cells_gid e;
   covered_segments := v;
   action_mask := action_mask e;
   nr_groups := nr_groups e;
   _agent_location := _agent_location e;
   _agent_location_vid := _agent_location_vid e;
   _agent_location_vector := _agent_location_vector e;
   np_random := np_random e;
   od_queries := od_queries e |}.

Definition set_action_mask (v : list Z) (e : Env F Rng) : Env F Rng :=
{| city := city e;
   nr_stations := nr_stations e;
   stations_placed := stations_placed e;
   covered_cells_vid := covered_cells_vid e;
   covered_cells_gid := covered_cells_gid e;
   covered_segments := covered_segments e;
   action_mask := v;
   nr_groups := nr_groups e;
   _agent_location := _agent_location e;
   _agent_location_vid := _agent_location_vid e;
   _agent_location_vector := _agent_location_vector e;
   np_random := np_random e;
   od_queries := od_queries e |}.

Definition set_agent_location (v : option (Z * Z)) (e : Env F Rng) : Env F Rng :=
{| city := city e;
   nr_stations := nr_stations e;
   stations_placed := stations_placed e;
   covered_cells_vid := covered_cells_vid e;
   covered_cells_gid := covered_cells_gid e;
   covered_segments := covered_segments e;
   action_mask := action_mask e;
   nr_groups := nr_groups e;
   _agent_location := v;
   _agent_location_vid := _agent_location_vid e;
   _agent_location_vector := _agent_location_vector e;
   np_random := np_random e;
   od_queries := od_queries e |}.

Definition set_agent_location_vid (v : option Z) (e : Env F Rng) : Env F Rng :=
{| city := city e;
   nr_stations := nr_stations e;
   stations_placed := stations_placed e;
   covered_cells_vid := covered_cells_vid e;
   covered_cells_gid := covered_cells_gid e;
   covered_segments := covered_segments e;
   action_mask := action_mask e;
   nr_groups := nr_groups e;
   _agent_location := _agent_location e;
   _agent_location_vid := v;
   _agent_location_vector := _agent_location_vector e;
   np_random := np_random e;
   od_queries := od_queries e |}.

Definition set_agent_location_vector (v : option (list F)) (e : Env F Rng) : Env F Rng :=
{| city := city e;
   nr_stations := nr_stations e;
   stations_placed := stations_placed e;
   covered_cells_vid := covered_cells_vid e;
   covered_cells_gid := covered_cells_gid e;
   covered_segments := covered_segments e;
   action_mask := action_mask e;
   nr_groups := nr_groups e;
   _agent_location := _agent_location e;
   _agent_location_vid := _agent_location_vid e;
   _agent_location_vector := v;
   np_random := np_random e;
   od_queries := od_queries e |}.

Definition set_np_random (v : Rng) (e : Env F Rng) : Env F Rng :=
{| city := city e;
   nr_stations := nr_stations e;
   stations_placed := stations_placed e;
   covered_cells_vid := covered_cells_vid e;
   covered_cells_gid := covered_cells_gid e;
   covered_segments := covered_segments e;
   action_mask := action_mask e;
   nr_groups := nr_groups e;
   _agent_location := _agent_location e;
   _agent_location_vid := _agent_location_vid e;
   _agent_location_vector := _agent_location_vector e;
   np_random := v;
   od_queries := od_queries e |}.

Definition set_od_queries (v : list (Z * Z)) (e : Env F Rng) : Env F Rng :=
{| city := city e;
   nr_stations := nr_stations e;
   stations_placed := stations_placed e;
   covered_cells_vid := covered_cells_vid e;
   covered_cells_gid := covered_cells_gid e;
   covered_segments := covered_segments e;
   action_mask := action_mask e;
   nr_groups := nr_groups e;
   _agent_location := _agent_location e;
   _agent_location_vid := _agent_location_vid e;
   _agent_location_vector := _agent_location_vector e;
   np_random := np_random e;
   od_queries := v |}.
End Monad.

Notation "x <- c ;; k" := (bind c (fun x => k))
  (at level 100, c at next level, right associativity).
Notation "c ;; k" := (bind c (fun _ => k))
  (at level 100, right associativity).

(** ** The methods of [MOTNDP] *)

(** The eight moves: up, up-right, right, down-right, down, down-left,
    left, up-left. *)
Definition _action_to_direction : list (Z * Z) :=
  [(-1, 0); (-1, 1); (0, 1); (1, 1); (1, 0); (1, -1); (0, -1); (-1, -1)].

(** [location + direction] on int64 pairs. *)
Definition move (location direction : Z * Z) : Z * Z :=
  (add64 (fst location) (fst direction), add64 (snd location) (snd direction)).

(** Truth value of the [loc] argument in [if loc:]. [None] is false and a
    tuple of two items is true; numpy refuses to give a truth value to an
    array of more than one element. *)
Definition truth_value (loc : start_loc) : exn + bool :=
  match loc with
  | LocNone => inr false
  | LocTuple _ _ => inr true
  | LocArray _ _ => inl ValueError
  end.

(** The coordinate array that [reset] hands to [_update_agent_location]:
    a tuple goes through [np.array([loc[0], loc[1]])], an array is passed on
    as it is. [None] is false in [if loc:] and never gets here. The
    coordinates of a tuple are taken to be within int64, where the array
    built from them is an int64 array. *)
Definition as_location (loc : start_loc) : exn + Z * Z :=
  match loc with
  | LocNone => inl AttributeError
  | LocTuple x y => inr (x, y)
  | LocArray x y => inr (x, y)
  end.

Section Methods.
Context {F : Type} `{Float64 F} {Rng : Type} `{Generator Rng}.

(** [self.observation_space.n]: the space is [Discrete(city.grid_size)]. *)
Definition observation_space_n (e : Env F Rng) : Z := grid_size (city e).

(** [MOTNDP.__init__]. [rng] is the generator [self.np_random] would
    start from if [reset] were never given a seed. Of the spaces of
    gymnasium only their sizes are kept; [spaces.Discrete(n)] asserts that
    [n] is positive. *)
Definition __init__ (c : City F) (nr : Z) (rng : Rng) : exn + Env F Rng :=
  if grid_size c <=? 0 then inl AssertionError
  else
    match groups c with
    | None => inl AttributeError
    | Some gs =>
        inr {| city := c;
               nr_stations := nr;
               stations_placed := 0;
               covered_cells_vid := [];
               covered_cells_gid := [];
               covered_segments := [];
               action_mask := repeat 1 8;
               nr_groups := Z.of_nat (length gs);
               _agent_location := None;
               _agent_location_vid := None;
               _agent_location_vector := None;
               np_random := rng;
               od_queries := [] |}
    end.

Definition _get_obs : M F Rng (Observation F) :=
  e <- get ;;
  l <- attr (_agent_location e) ;;
  vid <- attr (_agent_location_vid e) ;;
  vec <- attr (_agent_location_vector e) ;;
  ret {| location := l; location_vid := vid; location_vector := vec |}.

Definition _get_info : M F Rng Info :=
  e <- get ;;
  ret {| segments := covered_segments e; info_action_mask := action_mask e |}.

(** [self.city.satisfied_od_mask(segment)], recorded in [od_queries]. *)
Definition query_satisfied_od_mask (segment : Z * Z) : M F Rng (list (list F)) :=
  e <- get ;;
  modify (set_od_queries (od_queries e ++ [segment])) ;;
  ret (satisfied_od_mask (city e) segment).

(** One round of the loop of [_calculate_reward], for group [i] with
    matrix [g_od]: entry [i] of [sat_group_ods] is assigned, and read back
    for entry [i] of [sat_group_ods_pct]. The product [g_od * sat_od_mask]
    may raise. *)
Definition reward_body (sat_od_mask : list (list F)) (acc : list F * list F)
    (ig : nat * list (list F)) : exn + list F * list F :=
  let i := fst ig in
  let g_od := snd ig in
  match mmul g_od sat_od_mask with
  | inl x => inl x
  | inr product =>
      let sat_group_ods := <[i := msum product]> (fst acc) in
      let sat_group_ods_pct :=
        <[i := fdiv (nth i sat_group_ods fzero) (msum g_od)]> (snd acc) in
      inr (sat_group_ods, sat_group_ods_pct)
  end.

(** [for i, g_od in enumerate(self.city.group_od_mx): ...]; the first round
    that raises ends the loop. *)
Definition reward_round (sat_od_mask : list (list F))
    (acc : exn + list F * list F) (ig : nat * list (list F)) :
    exn + list F * list F :=
  match acc with
  | inl x => inl x
  | inr a => reward_body sat_od_mask a ig
  end.

Definition reward_loop (mx : list (list (list F))) (sat_od_mask : list (list F))
    (init : list F * list F) : exn + list F * list F :=
  fold_left (reward_round sat_od_mask) (enumerate mx) (inr init).

Definition _calculate_reward (segment : Z * Z) (use_pct : bool) : M F Rng (list F) :=
  e <- get ;;
  match group_od_mx (city e) with
  | None | Some [] => raise AssertionError
  | Some mx =>
      let n := Z.of_nat (length mx) in
      if bool_decide (segment ∈ covered_segments e) then lift (np_zeros n)
      else
        sat_od_mask <- query_satisfied_od_mask segment ;;
        sat_group_ods <- lift (np_zeros n) ;;
        sat_group_ods_pct <- lift (np_zeros n) ;;
        r <- lift (reward_loop mx sat_od_mask (sat_group_ods, sat_group_ods_pct)) ;;
        ret (if use_pct then snd r else fst r)
  end.

Definition _update_agent_location (new_location : Z * Z) : M F Rng unit :=
  modify (set_agent_location (Some new_location)) ;;
  e <- get ;;
  let vid := grid_to_vector (city e) new_location in
  modify (set_agent_location_vid (Some vid)) ;;
  zeros <- lift (np_zeros (observation_space_n e)) ;;
  modify (set_agent_location_vector (Some zeros)) ;;
  vec <- lift (py_setitem zeros vid fone) ;;
  modify (set_agent_location_vector (Some vec)).

(** The mask entry of one candidate location. *)
Definition allowed (c : City F) (covered : list Z) (p : Z * Z) : bool :=
  (0 <=? fst p) && (0 <=? snd p)
  && (fst p <? grid_x_size c)
  && (snd p <? grid_y_size c)
  && negb (bool_decide (grid_to_vector c p ∈ covered)).

Definition _update_action_mask (location : Z * Z) (prev_action : option Z) : M F Rng unit :=
  e <- get ;;
  let possible_locations := map (move location) _action_to_direction in
  let mask := map (allowed (city e) (covered_cells_vid e)) possible_locations in
  modify (set_action_mask (map Z.b2z mask)).

(** [super().reset(seed=seed)]: a seed replaces the generator. *)
Definition gym_reset (seed : option Z) : M F Rng unit :=
  match seed with
  | None => ret tt
  | Some s =>
      g <- lift (seeding_np_random s) ;;
      modify (set_np_random g)
  end.

(** [self.np_random.integers(low, high)] *)
Definition np_random_integers (low high : Z) : M F Rng Z :=
  e <- get ;;
  let r := integers (np_random e) low high in
  modify (set_np_random (snd r)) ;;
  lift (fst r).

Definition reset (seed : option Z) (loc : start_loc) : M F Rng (Observation F * Info) :=
  gym_reset seed ;;
  given <- lift (truth_value loc) ;;
  (if given : bool then
     l <- lift (as_location loc) ;;
     _update_agent_location l
   else
     e <- get ;;
     agent_x <- np_random_integers 0 (grid_x_size (city e)) ;;
     agent_y <- np_random_integers 0 (grid_y_size (city e)) ;;
     _update_agent_location (agent_x, agent_y)) ;;
  modify (set_stations_placed 1) ;;
  e <- get ;;
  l <- attr (_agent_location e) ;;
  modify (set_covered_cells_vid [grid_to_vector (city e) l]) ;;
  modify (set_covered_cells_gid [l]) ;;
  modify (set_covered_segments []) ;;
  _update_action_mask l None ;;
  observation <- _get_obs ;;
  info <- _get_info ;;
  ret (observation, info).

Definition step (action : Z)
    : M F Rng (Observation F * list F * bool * bool * Info) :=
  direction <- lift (py_getitem _action_to_direction action) ;;
  e <- get ;;
  l <- attr (_agent_location e) ;;
  let new_location := move l direction in
  modify (set_stations_placed (stations_placed e + 1)) ;;
  let from_idx := grid_to_vector (city e) l in
  let to_idx := grid_to_vector (city e) new_location in
  reward <- _calculate_reward (from_idx, to_idx) true ;;
  e <- get ;;
  modify (set_covered_segments (covered_segments e ++ [(from_idx, to_idx)])) ;;
  e <- get ;;
  modify (set_covered_segments (covered_segments e ++ [(to_idx, from_idx)])) ;;
  e <- get ;;
  modify (set_covered_cells_vid (covered_cells_vid e ++ [to_idx])) ;;
  e <- get ;;
  modify (set_covered_cells_gid (covered_cells_gid e ++ [new_location])) ;;
  _update_agent_location new_location ;;
  e <- get ;;
  l' <- attr (_agent_location e) ;;
  _update_action_mask l' (Some action) ;;
  e <- get ;;
  let terminated :=
    (nr_stations e <=? stations_placed e) || (np_sum (action_mask e) =? 0) in
  observation <- _get_obs ;;
  info <- _get_info ;;
  ret (observation, reward, terminated, false, info).
End Methods.

(** ** A concrete arithmetic, generator and city

    Used to run the model and to instantiate the theorems. *)

(** Exact rational arithmetic. *)
#[export] Instance Q_float : Float64 Q := {|
  fzero := 0%Q;
  fone := 1%Q;
  fadd := Qplus;
  fmul := Qmult;
  fdiv := Qdiv;
  fle := Qle;
  ffinite := fun _ => True
|}.

(** A counter as generator: the seed is the first state (a negative seed is
    refused), each draw takes the state modulo the width of the range. *)
#[export] Instance counter_generator : Generator Z := {|
  seeding_np_random := fun s => if s <? 0 then inl LibraryError else inr s;
  integers := fun g low high =>
    if high <=? low then (inl ValueError, g)
    else (inr (low + g mod (high - low)), g + 1)
|}.

(** Row-major numbering of a grid with [ys] columns, as in the docstring of
    [_update_agent_location]: (0,0) -> 0, (0,1) -> 1, ... *)
Definition row_major (ys : Z) (p : Z * Z) : Z := wrap64 (wrap64 (fst p * ys) + snd p).

(** A 3 x 3 grid with one group. The demand of the group is 1 on ten
    origin-destination pairs; a segment satisfies the pairs that leave from
    its first cell, and so the segment from cell 0 to cell 1 satisfies 4
    units out of 10. *)
Definition demo_od : list (list Q) :=
  [ [0; 1; 1; 1; 1; 0; 0; 0; 0];
    [1; 0; 1; 0; 0; 0; 0; 0; 0];
    [1; 1; 0; 0; 0; 0; 0; 0; 0];
    [0; 0; 0; 0; 1; 0; 0; 0; 0];
    [0; 0; 0; 1; 0; 0; 0; 0; 0];
    [0; 0; 0; 0; 0; 0; 0; 0; 0];
    [0; 0; 0; 0; 0; 0; 0; 0; 0];
    [0; 0; 0; 0; 0; 0; 0; 0; 0];
    [0; 0; 0; 0; 0; 0; 0; 0; 0] ]%Q.

Definition demo_mask (segment : Z * Z) : list (list Q) :=
  map (fun i => map (fun j => if i =? fst segment then 1%Q else 0%Q)
                    (seq 0 9))
      (map Z.of_nat (seq 0 9)).

Definition demo_city : City Q := {|
  grid_x_size := 3;
  grid_y_size := 3;
  grid_size := 9;
  grid_to_vector := row_major 3;
  satisfied_od_mask := demo_mask;
  group_od_mx := Some [demo_od];
  groups := Some [1%Q]
|}.

(** A city without group definitions. *)
Definition bare_city : City Q := {|
  grid_x_size := 3;
  grid_y_size := 3;
  grid_size := 9;
  grid_to_vector := row_major 3;
  satisfied_od_mask := demo_mask;
  group_od_mx := None;
  groups := Some []
|}.

(** A freshly constructed environment on [c] with budget [nr]. *)
Definition fresh (c : City Q) (nr : Z) : Env Q Z :=
  match __init__ c nr 0 with
  | inr e => e
  | inl _ =>
      {| city := c; nr_stations := nr; stations_placed := 0;
         covered_cells_vid := []; covered_cells_gid := [];
         covered_segments := []; action_mask := repeat 1 8; nr_groups := 0;
         _agent_location := None; _agent_location_vid := None;
         _agent_location_vector := None; np_random := 0; od_queries := [] |}
  end.

(** The state after running [m] from [e], whether or not [m] raised. *)
Definition after {A} (m : M Q Z A) (e : Env Q Z) : Env Q Z := snd (m e).

(** The demo environment after [reset(loc=(0, 0))], and after a following
    step to the right. *)
Definition demo_start : Env Q Z :=
  after (reset None (LocTuple 0 0)) (fresh demo_city 4).

Definition demo_next : Env Q Z := after (step 2) demo_start.

(** What that step returns beside the reward and the two flags. *)
Definition demo_obs : Observation Q :=
  {| location := (0, 1);
     location_vid := 1;
     location_vector := [0; 1; 0; 0; 0; 0; 0; 0; 0]%Q |}.

Definition demo_info : Info :=
  {| segments := [(0, 1); (1, 0)];
     info_action_mask := [0; 0; 1; 1; 1; 1; 0; 0] |}.

(** The city without group definitions, after [reset(loc=(0, 0))]. *)
Definition bare_start : Env Q Z :=
  after (reset None (LocTuple 0 0)) (fresh bare_city 4).

(** binary64 itself, through the primitive floats: [fle] is [<=] on floats,
    false as soon as one side is nan. Where nothing fixes the arithmetic,
    the rationals stay the default. *)
#[export] Instance binary64 : Float64 PrimFloat.float | 10 := {|
  fzero := PrimFloat.zero;
  fone := PrimFloat.one;
  fadd := PrimFloat.add;
  fmul := PrimFloat.mul;
  fdiv := PrimFloat.div;
  fle := fun x y => PrimFloat.leb x y = true;
  ffinite := fun x => PrimFloat.is_finite x = true
|}.

(** The laws of [Float64Laws] that quantify over values, as a check of
    binary64 on every choice of values from a list. *)
Definition binary64_laws_on (xs : list PrimFloat.float) : bool :=
  let le := PrimFloat.leb in
  let all (p : PrimFloat.float -> bool) := forallb p xs in
  all (fun x => all (fun y => all (fun z =>
    implb (le x y && le y z) (le x z))))
  && all (fun a => all (fun b => all (fun c => all (fun d =>
    implb (le PrimFloat.zero a && le a b && le PrimFloat.zero c && le c d)
          (le (PrimFloat.add a c) (PrimFloat.add b d))))))
  && all (fun x =>
    implb (le PrimFloat.zero x)
          (le (PrimFloat.mul x PrimFloat.one) x
           && le PrimFloat.zero (PrimFloat.mul x PrimFloat.one)))
  && all (fun x =>
    implb (PrimFloat.is_finite x)
          (le (PrimFloat.mul x PrimFloat.zero) PrimFloat.zero
           && le PrimFloat.zero (PrimFloat.mul x PrimFloat.zero)))
  && all (fun x => all (fun y =>
    implb (le PrimFloat.zero x && le x y && negb (le y PrimFloat.zero)
           && PrimFloat.is_finite y)
          (le PrimFloat.zero (PrimFloat.div x y)
           && le (PrimFloat.div x y) PrimFloat.one))).

(** 2^1023, a finite float; twice it is beyond the largest float. *)
Definition huge : PrimFloat.float := 0x1p+1023%float.

(** Values at the edges of binary64: the zeros, the least and the largest
    finite float, the infinities and nan, among ordinary values. *)
Definition edge_values : list PrimFloat.float :=
  [ PrimFloat.zero; PrimFloat.neg_zero; PrimFloat.one; PrimFloat.two;
    0x1p-1074%float; 0x1p-1%float; 0x1.8p+1%float; 0x1.999999999999ap-4%float;
    huge; 0x1.fffffffffffffp+1023%float;
    PrimFloat.infinity; PrimFloat.neg_infinity; PrimFloat.nan;
    (-0x1p+0)%float ].

(** A 1 x 2 grid with one group whose demand is [huge] in both directions
    between the two cells; every segment satisfies every pair. *)
Definition huge_od : list (list PrimFloat.float) :=
  [ [PrimFloat.zero; huge];
    [huge; PrimFloat.zero] ].

Definition all_pairs : list (list PrimFloat.float) :=
  [ [PrimFloat.one; PrimFloat.one];
    [PrimFloat.one; PrimFloat.one] ].

Definition huge_city : City PrimFloat.float := {|
  grid_x_size := 1;
  grid_y_size := 2;
  grid_size := 2;
  grid_to_vector := row_major 2;
  satisfied_od_mask := fun _ => all_pairs;
  group_od_mx := Some [huge_od];
  groups := Some [PrimFloat.one]
|}.

(** The environment that [MOTNDP(huge_city, 4)] constructs, and the one
    that [reset(loc=(0, 0))] leaves. *)
Definition huge_fresh : Env PrimFloat.float Z :=
  {| city := huge_city;
     nr_stations := 4;
     stations_placed := 0;
     covered_cells_vid := [];
     covered_cells_gid := [];
     covered_segments := [];
     action_mask := repeat 1 8;
     nr_groups := 1;
     _agent_location := None;
     _agent_location_vid := None;
     _agent_location_vector := None;
     np_random := 0;
     od_queries := [] |}.

Definition huge_start : Env PrimFloat.float Z :=
  snd (reset None (LocTuple 0 0) huge_fresh).

(** ** Vocabulary of the verification *)

Section Outcomes.
Context {F : Type} `{Float64 F} {Rng : Type} `{Generator Rng}.

(** The attributes after a call of [step] that returns, from the state
    [e2] in which [_calculate_reward] left them: [l] is the location before
    the move, [d] the direction and [p] the position set in the one-hot
    vector. *)
Definition stepped (e2 : Env F Rng) (l d : Z * Z) (p : nat) : Env F Rng :=
  let c := city e2 in
  let new_location := move l d in
  let from_idx := grid_to_vector c l in
  let to_idx := grid_to_vector c new_location in
  let e6 :=
    set_covered_cells_gid (covered_cells_gid e2 ++ [new_location])
      (set_covered_cells_vid (covered_cells_vid e2 ++ [to_idx])
         (set_covered_segments
            ((covered_segments e2 ++ [(from_idx, to_idx)]) ++ [(to_idx, from_idx)])
            e2)) in
  let e7 :=
    set_agent_location_vector
      (Some (<[p := fone]> (repeat fzero (Z.to_nat (grid_size c)))))
      (set_agent_location_vid (Some to_idx)
         (set_agent_location (Some new_location) e6)) in
  set_action_mask
    (map Z.b2z (map (allowed c (covered_cells_vid e7))
                    (map (move new_location) _action_to_direction))) e7.

(** The attributes after a call of [reset] that returns, from the state
    [e0] left by the seeding and the draws: [l] is the start location and
    [p] the position set in the one-hot vector. *)
Definition restarted (e0 : Env F Rng) (l : Z * Z) (p : nat) : Env F Rng :=
  let c := city e0 in
  let e1 :=
    set_agent_location_vector
      (Some (<[p := fone]> (repeat fzero (Z.to_nat (grid_size c)))))
      (set_agent_location_vid (Some (grid_to_vector c l))
         (set_agent_location (Some l) e0)) in
  let e2 :=
    set_covered_segments []
      (set_covered_cells_gid [l]
         (set_covered_cells_vid [grid_to_vector c l]
            (set_stations_placed 1 e1))) in
  set_action_mask
    (map Z.b2z (map (allowed c (covered_cells_vid e2))
                    (map (move l) _action_to_direction))) e2.

(** The state in which [reset] picks the start location, and the location
    it picks, when it gets that far. *)
Definition start_of (seed : option Z) (loc : start_loc) (e : Env F Rng)
    : exn + (Z * Z) * Env F Rng :=
  match (gym_reset seed ;;
         given <- lift (truth_value loc) ;;
         if given : bool then lift (as_location loc)
         else
           e <- get ;;
           agent_x <- np_random_integers 0 (grid_x_size (city e)) ;;
           agent_y <- np_random_integers 0 (grid_y_size (city e)) ;;
           ret (agent_x, agent_y)) e with
  | (inr l, e0) => inr (l, e0)
  | (inl x, _) => inl x
  end.

(** The action mask of [e] marks [action] as legal: [action_mask[action]]
    is 1. *)
Definition legal (e : Env F Rng) (action : Z) : Prop :=
  py_getitem (action_mask e) action = inr 1.

(** [episode e visited]: [e] is the state after a [reset] followed by
    [step]s that all returned, each called with an action that the mask of
    its state marked legal; [visited] lists the agent locations in the order
    they were taken, the start location first. *)
Inductive episode : Env F Rng -> list (Z * Z) -> Prop :=
| episode_reset e0 seed loc r e l :
    reset seed loc e0 = (inr r, e) ->
    _agent_location e = Some l ->
    episode e [l]
| episode_step e visited action r e' l :
    episode e visited ->
    legal e action ->
    step action e = (inr r, e') ->
    _agent_location e' = Some l ->
    episode e' (visited ++ [l]).

(** After [reset] and after [step] the mask is the one computed from the
    agent location and the covered cells of the state. *)
Definition mask_current (e : Env F Rng) (l : Z * Z) : Prop :=
  action_mask e
  = map Z.b2z (map (allowed (city e) (covered_cells_vid e))
                   (map (move l) _action_to_direction)).
End Outcomes.

(** ** Histories and grid cells *)

Section Histories.
Context {F : Type} `{Float64 F} {Rng : Type} `{Generator Rng}.

(** [history e k]: [e] is the state after a [reset] that returned and [k]
    calls of [step] that returned, whatever the actions were. *)
Inductive history : Env F Rng -> nat -> Prop :=
| history_reset e0 seed loc r e :
    reset seed loc e0 = (inr r, e) ->
    history e 0
| history_step e k action r e' :
    history e k ->
    step action e = (inr r, e') ->
    history e' (S k).

(** [p] is a cell of the grid of [c]. *)
Definition in_grid (c : City F) (p : Z * Z) : Prop :=
  (0 <= fst p < grid_x_size c) /\ (0 <= snd p < grid_y_size c).

(** The cells of the grid of [c], row by row. *)
Definition grid_cells (c : City F) : list (Z * Z) :=
  list_prod (seqZ 0 (grid_x_size c)) (seqZ 0 (grid_y_size c)).
End Histories.

(** What [reset(loc=(0, 0))] returns on the demo city, and the demo
    environment after [reset(loc=(2, 2))], on the last cell of the grid. *)
Definition demo_obs0 : Observation Q :=
  {| location := (0, 0);
     location_vid := 0;
     location_vector := [1; 0; 0; 0; 0; 0; 0; 0; 0]%Q |}.

Definition demo_info0 : Info :=
  {| segments := []; info_action_mask := [0; 0; 1; 1; 1; 0; 0; 0] |}.

Definition demo_corner : Env Q Z :=
  after (reset None (LocTuple 2 2)) (fresh demo_city 4).

(** * Verification *)

(** ** Running method bodies *)

Ltac run :=
  unfold bind, get, modify, ret, lift, attr, raise in *; simpl in *.

(** Computes the state after a sequence of attribute assignments: unfolds
    the plumbing of [M], the assignments and the attribute reads, and
    nothing else. *)
Ltac run_state :=
  cbv beta iota zeta delta
    [bind get modify ret lift attr raise
     set_stations_placed set_covered_cells_vid set_covered_cells_gid
     set_covered_segments set_action_mask set_agent_location
     set_agent_location_vid set_agent_location_vector set_np_random
     set_od_queries
     city nr_stations stations_placed covered_cells_vid covered_cells_gid
     covered_segments action_mask nr_groups _agent_location
     _agent_location_vid _agent_location_vector np_random od_queries].

Section Facts.
Context {F : Type} `{Float64 F} {Rng : Type} `{Generator Rng}.

(** A run is determined by its result and the state it leaves. *)
Lemma run_pair {A} (m : M F Rng A) (e : Env F Rng) (r : exn + A) :
  fst (m e) = r -> m e = (r, snd (m e)).
Proof. intros <-. apply surjective_pairing. Qed.

(** Within the int64 range nothing wraps: a move is the plain sum. *)
Lemma wrap64_id z : - 2 ^ 63 <= z < 2 ^ 63 -> wrap64 z = z.
Proof. intros Hz. unfold wrap64. rewrite Z.mod_small; lia. Qed.

Lemma move_exact (l d : Z * Z) :
  - 2 ^ 63 <= fst l + fst d < 2 ^ 63 -> - 2 ^ 63 <= snd l + snd d < 2 ^ 63 ->
  move l d = (fst l + fst d, snd l + snd d).
Proof.
  intros Hx Hy. unfold move, add64. rewrite !wrap64_id by assumption.
  reflexivity.
Qed.

Lemma py_index_lt n i p : py_index n i = Some p -> (p < n)%nat.
Proof.
  unfold py_index. intros Hp.
  destruct ((0 <=? i) && (i <? Z.of_nat n)) eqn:E1.
  - inversion Hp; subst. lia.
  - destruct ((- Z.of_nat n <=? i) && (i <? 0)) eqn:E2; [|discriminate].
    inversion Hp; subst. lia.
Qed.

Lemma py_index_nonneg n i p : py_index n i = Some p -> 0 <= i -> p = Z.to_nat i.
Proof.
  unfold py_index. intros Hp Hi.
  destruct ((0 <=? i) && (i <? Z.of_nat n)) eqn:E1.
  - congruence.
  - destruct ((- Z.of_nat n <=? i) && (i <? 0)) eqn:E2; [lia | discriminate].
Qed.

Lemma py_getitem_lookup {A} (a : list A) i x :
  py_getitem a i = inr x -> exists p, py_index (length a) i = Some p /\ a !! p = Some x.
Proof.
  unfold py_getitem. destruct (py_index (length a) i) as [p|]; [|discriminate].
  destruct (a !! p) eqn:E; [|discriminate]. intros [= ->]. eauto.
Qed.

Lemma np_zeros_ok n (z : list F) :
  np_zeros n = inr z -> 0 <= n /\ z = repeat fzero (Z.to_nat n).
Proof.
  unfold np_zeros. destruct (n <? 0) eqn:E; [discriminate|].
  intros [= <-]. split; [lia | reflexivity].
Qed.

(** [_update_action_mask] never raises and assigns only [action_mask]. *)
Lemma _update_action_mask_run (e : Env F Rng) location prev :
  _update_action_mask location prev e
  = (inr tt,
     set_action_mask
       (map Z.b2z (map (allowed (city e) (covered_cells_vid e))
                       (map (move location) _action_to_direction))) e).
Proof. reflexivity. Qed.

(** A call of [_update_agent_location] that returns has assigned the three
    location attributes; the one-hot vector is [np.zeros(n)] with entry
    [py_index n vid] set. *)
Lemma _update_agent_location_ok (e e' : Env F Rng) l :
  _update_agent_location l e = (inr tt, e') ->
  let n := Z.to_nat (grid_size (city e)) in
  let vid := grid_to_vector (city e) l in
  exists p, 0 <= grid_size (city e) /\ py_index n vid = Some p /\
    e' = set_agent_location_vector (Some (<[p := fone]> (repeat fzero n)))
           (set_agent_location_vid (Some vid) (set_agent_location (Some l) e)).
Proof.
  unfold _update_agent_location, observation_space_n. run.
  destruct (np_zeros (grid_size (city e))) as [x|z] eqn:Ez; [discriminate|].
  apply np_zeros_ok in Ez as [Hn ->].
  unfold py_setitem. rewrite repeat_length.
  destruct (py_index _ _) as [p|] eqn:Ep; [|discriminate].
  intros [= <-]. exists p. auto.
Qed.

(** [_calculate_reward] assigns nothing but the query history. *)
Lemma _calculate_reward_state (e e' : Env F Rng) seg b r :
  _calculate_reward seg b e = (r, e') ->
  e' = e \/ e' = set_od_queries (od_queries e ++ [seg]) e.
Proof.
  unfold _calculate_reward, query_satisfied_od_mask. run.
  destruct (group_od_mx (city e)) as [[|g mx]|]; try (intros [= _ <-]; auto).
  destruct (bool_decide _); [intros [= _ <-]; auto|].
  destruct (np_zeros _); [intros [= _ <-]; auto|].
  destruct (reward_loop _ _ _); intros [= _ <-]; auto.
Qed.
End Facts.

Arguments _calculate_reward : simpl never.
Arguments _update_agent_location : simpl never.
Arguments _update_action_mask : simpl never.
Arguments py_getitem : simpl never.
Arguments truth_value : simpl never.

Section StepFacts.
Context {F : Type} `{Float64 F} {Rng : Type} `{Generator Rng}.

Lemma step_ok (e e' : Env F Rng) action r :
  step action e = (inr r, e') ->
  exists d l reward e2 p,
    py_getitem _action_to_direction action = inr d /\
    _agent_location e = Some l /\
    _calculate_reward
      (grid_to_vector (city e) l, grid_to_vector (city e) (move l d)) true
      (set_stations_placed (stations_placed e + 1) e) = (inr reward, e2) /\
    0 <= grid_size (city e) /\
    py_index (Z.to_nat (grid_size (city e)))
             (grid_to_vector (city e) (move l d)) = Some p /\
    e' = stepped e2 l d p /\
    r = ({| location := move l d;
            location_vid := grid_to_vector (city e) (move l d);
            location_vector := <[p := fone]> (repeat fzero (Z.to_nat (grid_size (city e)))) |},
         reward,
         (nr_stations e' <=? stations_placed e') || (np_sum (action_mask e') =? 0),
         false,
         {| segments := covered_segments e'; info_action_mask := action_mask e' |}).
Proof.
  unfold step. run.
  destruct (py_getitem _action_to_direction action) as [x|d] eqn:Ed; [discriminate|].
  destruct (_agent_location e) as [l|] eqn:El; [|discriminate].
  simpl.
  destruct (_calculate_reward _ _ _) as [[x|reward] e2] eqn:Er; [discriminate|].
  pose proof (_calculate_reward_state _ _ _ _ _ Er) as Hst.
  destruct (_update_agent_location _ _) as [[x|[]] e7] eqn:Eu; [discriminate|].
  apply _update_agent_location_ok in Eu as (p & Hn & Hp & ->).
  unfold _update_action_mask, _get_obs, _get_info. run_state.
  intros Heq. apply pair_equal_spec in Heq as [Hr He].
  assert (Hi : forall A B (x y : B), @inr A B x = inr y -> y = x) by congruence.
  apply Hi in Hr. clear Hi.
  exists d, l, reward, e2, p.
  destruct Hst as [-> | ->]; subst e' r;
    (split; [reflexivity|]); (split; [reflexivity|]); (split; [exact Er|]);
    (split; [exact Hn|]); (split; [exact Hp|]); split; reflexivity.
Qed.
End StepFacts.


Section ResetFacts.
Context {F : Type} `{Float64 F} {Rng : Type} `{Generator Rng}.

Lemma gym_reset_state (e e' : Env F Rng) seed r :
  gym_reset seed e = (r, e') ->
  e' = e \/ exists g, e' = set_np_random g e.
Proof.
  unfold gym_reset. destruct seed as [s|]; run.
  - destruct (seeding_np_random s); intros [= _ <-]; eauto.
  - intros [= _ <-]; auto.
Qed.

Lemma reset_ok (e e' : Env F Rng) seed loc r :
  reset seed loc e = (inr r, e') ->
  exists l e0 p,
    start_of seed loc e = inr (l, e0) /\
    city e0 = city e /\ nr_stations e0 = nr_stations e /\
    od_queries e0 = od_queries e /\
    0 <= grid_size (city e) /\
    py_index (Z.to_nat (grid_size (city e))) (grid_to_vector (city e) l) = Some p /\
    e' = restarted e0 l p /\
    r = ({| location := l;
            location_vid := grid_to_vector (city e) l;
            location_vector := <[p := fone]> (repeat fzero (Z.to_nat (grid_size (city e)))) |},
         {| segments := []; info_action_mask := action_mask e' |}).
Proof.
  unfold reset, start_of. run.
  destruct (gym_reset seed e) as [[x|[]] ea] eqn:Eg; [discriminate|].
  apply gym_reset_state in Eg.
  destruct (truth_value loc) as [x|[|]] eqn:Et; [discriminate| |].
  - destruct (as_location loc) as [x|l] eqn:Ea; [discriminate|].
    destruct (_update_agent_location l ea) as [[x|[]] eb] eqn:Eu; [discriminate|].
    apply _update_agent_location_ok in Eu as (p & Hn & Hp & ->).
    unfold _update_action_mask, _get_obs, _get_info. run_state.
    intros Heq. apply pair_equal_spec in Heq as [Hr He].
    assert (Hi : forall A B (x y : B), @inr A B x = inr y -> y = x) by congruence.
    apply Hi in Hr. clear Hi.
    exists l, ea, p.
    destruct Eg as [-> | [g ->]]; subst e' r;
      repeat (split; [first [reflexivity | exact Hn | exact Hp]|]); reflexivity.
  - unfold np_random_integers. run.
    destruct (fst (integers (np_random ea) 0 (grid_x_size (city ea))))
      as [x|ax] eqn:Ex; [discriminate|].
    destruct (fst (integers _ 0 (grid_y_size (city ea)))) as [x|ay] eqn:Ey;
      [discriminate|].
    match goal with
    | |- context [_update_agent_location ?l ?s] =>
        destruct (_update_agent_location l s) as [[x|[]] eb] eqn:Eu; [discriminate|]
    end.
    apply _update_agent_location_ok in Eu as (p & Hn & Hp & ->).
    unfold _update_action_mask, _get_obs, _get_info. run_state.
    intros Heq. apply pair_equal_spec in Heq as [Hr He].
    assert (Hi : forall A B (x y : B), @inr A B x = inr y -> y = x) by congruence.
    apply Hi in Hr. clear Hi.
    eexists _, _, p.
    destruct Eg as [-> | [g ->]]; subst e' r;
      repeat (split; [first [reflexivity | exact Hn | exact Hp]|]); reflexivity.
Qed.
End ResetFacts.

(** ** The action mask (C5) and termination (C1) *)

Section MaskAndTermination.
Context {F : Type} `{Float64 F} {Rng : Type} `{Generator Rng}.

Lemma allowed_true (c : City F) covered p :
  allowed c covered p = true <->
  0 <= fst p /\ 0 <= snd p /\ fst p < grid_x_size c /\ snd p < grid_y_size c
  /\ grid_to_vector c p ∉ covered.
Proof.
  unfold allowed.
  rewrite !andb_true_iff, negb_true_iff, bool_decide_eq_false,
    !Z.leb_le, !Z.ltb_lt.
  tauto.
Qed.

Lemma b2z_one b : Z.b2z b = 1 <-> b = true.
Proof. destruct b; simpl; split; intros; congruence || lia. Qed.

Lemma b2z_bit b : Z.b2z b = 0 \/ Z.b2z b = 1.
Proof. destruct b; auto. Qed.

(** Over non-negative entries, [np.sum] is 0 exactly when every entry is. *)
Lemma np_sum_acc (a : list Z) k : fold_left Z.add a k = k + np_sum a.
Proof.
  unfold np_sum. revert k.
  induction a as [|x a IH]; intros k; cbn [fold_left]; [lia|].
  rewrite (IH (k + x)), (IH (0 + x)). lia.
Qed.

Lemma np_sum_cons x (a : list Z) : np_sum (x :: a) = x + np_sum a.
Proof. unfold np_sum at 1. cbn [fold_left]. rewrite np_sum_acc. lia. Qed.

Lemma np_sum_zero (a : list Z) :
  Forall (fun m => 0 <= m) a -> (np_sum a = 0 <-> Forall (fun m => m = 0) a).
Proof.
  induction 1 as [|x a Hx Ha IH].
  - split; [constructor | reflexivity].
  - assert (Hs : 0 <= np_sum a).
    { clear IH. induction Ha as [|y a Hy Ha IH]; [reflexivity|].
      rewrite np_sum_cons. lia. }
    rewrite np_sum_cons. split.
    + intros Hz. constructor; [lia|]. apply IH. lia.
    + intros Hall. apply Forall_cons in Hall as [-> Hall].
      apply IH in Hall. lia.
Qed.

Lemma mask_bits (bs : list bool) : Forall (fun m => 0 <= m) (map Z.b2z bs).
Proof.
  induction bs as [|b bs IH]; constructor; [destruct b; simpl; lia | exact IH].
Qed.

(** C5. [_update_action_mask] never raises, and the mask it assigns has one
    entry per direction of [_action_to_direction], in order: the entry is 1
    exactly when the candidate [location + direction] has both coordinates
    at least 0, its row below [grid_x_size], its column below [grid_y_size]
    and its index outside [covered_cells_vid]; it is 0 otherwise. *)
Theorem action_mask_rule (e : Env F Rng) (location : Z * Z) (prev : option Z) :
  fst (_update_action_mask location prev e) = inr tt /\
  Forall2
    (fun d m =>
       let p := move location d in
       (m = 1 <->
        0 <= fst p /\ 0 <= snd p /\
        fst p < grid_x_size (city e) /\ snd p < grid_y_size (city e) /\
        grid_to_vector (city e) p ∉ covered_cells_vid e)
       /\ (m = 0 \/ m = 1))
    _action_to_direction
    (action_mask (snd (_update_action_mask location prev e))).
Proof.
  rewrite _update_action_mask_run. split; [reflexivity|].
  cbn [snd]. unfold set_action_mask. cbn [action_mask].
  assert (Hentry : forall p,
    (Z.b2z (allowed (city e) (covered_cells_vid e) p) = 1 <->
     0 <= fst p /\ 0 <= snd p /\
     fst p < grid_x_size (city e) /\ snd p < grid_y_size (city e) /\
     grid_to_vector (city e) p ∉ covered_cells_vid e)
    /\ (Z.b2z (allowed (city e) (covered_cells_vid e) p) = 0
        \/ Z.b2z (allowed (city e) (covered_cells_vid e) p) = 1)).
  { intros p. split; [|apply b2z_bit]. rewrite b2z_one. apply allowed_true. }
  unfold _action_to_direction. cbn [map].
  repeat (constructor; [apply Hentry|]). constructor.
Qed.

(** C1. When [step] returns, [terminated] is true exactly when, in the
    state it leaves, [stations_placed >= nr_stations] or all 8 entries of
    the recomputed action mask are 0; [truncated] is false. The state it
    leaves has [stations_placed] one above the state it started from. *)
Theorem step_terminated_truncated (e e' : Env F Rng) (action : Z)
    obs reward (terminated truncated : bool) info :
  step action e = (inr (obs, reward, terminated, truncated, info), e') ->
  (terminated = true <->
     stations_placed e' >= nr_stations e'
     \/ Forall (fun m => m = 0) (action_mask e'))
  /\ truncated = false
  /\ length (action_mask e') = 8%nat
  /\ info_action_mask info = action_mask e'
  /\ stations_placed e' = stations_placed e + 1.
Proof.
  intros Hstep.
  apply step_ok in Hstep as (d & l & rw & e2 & p & _ & _ & Hr & _ & _ & He' & Hres).
  injection Hres as -> -> -> -> ->.
  assert (Hmask : exists bs, action_mask e' = map Z.b2z bs /\ length bs = 8%nat).
  { rewrite He'. eexists. split; [reflexivity|]. reflexivity. }
  destruct Hmask as (bs & Hbs & Hlen).
  assert (Hsp : stations_placed e' = stations_placed e + 1).
  { apply _calculate_reward_state in Hr. rewrite He'.
    destruct Hr as [-> | ->]; reflexivity. }
  repeat split; try assumption.
  - rewrite orb_true_iff, Z.leb_le, Z.eqb_eq.
    intros [Hb | Hz]; [left; lia | right].
    apply np_sum_zero; [rewrite Hbs; apply mask_bits | exact Hz].
  - rewrite orb_true_iff, Z.leb_le, Z.eqb_eq.
    intros [Hb | Hz]; [left; lia | right].
    apply np_sum_zero; [rewrite Hbs; apply mask_bits | exact Hz].
  - rewrite Hbs, length_map. exact Hlen.
Qed.
End MaskAndTermination.

(** ** The reward rule (C9, C3, C2, C4) *)

Section Reward.
Context {F : Type} `{Float64 F} {Rng : Type} `{Generator Rng}.

Lemma np_zeros_length (n : nat) :
  @np_zeros F _ (Z.of_nat n) = inr (repeat fzero n).
Proof.
  unfold np_zeros. destruct (Z.of_nat n <? 0) eqn:E; [apply Z.ltb_lt in E; lia|].
  rewrite Nat2Z.id. reflexivity.
Qed.

(** The product of two arrays raises nothing but ValueError. *)
Lemma mmul_raises (g mask : list (list F)) x :
  mmul g mask = inl x -> x = ValueError.
Proof.
  unfold mmul. destruct (_ && _); [discriminate|]. congruence.
Qed.


Lemma rectangular_intro (c : nat) (m : list (list F)) :
  Forall (fun r => length r = c) m -> rectangular c m = true.
Proof.
  unfold rectangular. induction 1 as [|r m Hr _ IH]; cbn [forallb]; [reflexivity|].
  rewrite IH, andb_true_r. apply Nat.eqb_eq, Hr.
Qed.

Lemma stretch_id {A} (n : nat) (l : list A) : length l = n -> stretch n l = l.
Proof.
  intros <-. destruct l as [|x [|y l]]; reflexivity.
Qed.

Lemma broadcast_dim_same (n : nat) : broadcast_dim n n = n.
Proof. unfold broadcast_dim. destruct (Nat.eqb n 1); reflexivity. Qed.

Lemma zip_rows_same_length (c : nat) (g m : list (list F)) :
  Forall (fun r => length r = c) g -> Forall (fun r => length r = c) m ->
  zip_with (fun a b => zip_with fmul (stretch c a) (stretch c b)) g m
  = zip_with (zip_with fmul) g m.
Proof.
  intros Hg. revert m. induction Hg as [|a g Ha _ IH]; intros m Hm; [reflexivity|].
  destruct Hm as [|b m Hb Hm]; [reflexivity|].
  cbn [zip_with]. rewrite (IH m Hm), !stretch_id by assumption. reflexivity.
Qed.


(** Two arrays of one shape have a product. *)
Lemma mmul_defined (c : nat) (g mask : list (list F)) :
  Forall (fun r => length r = c) g -> Forall (fun r => length r = c) mask ->
  length g = length mask ->
  mmul g mask = inr (zip_with (zip_with fmul) g mask).
Proof.
  intros Hg Hk Hlen.
  assert (Hcg : g <> [] -> snd (shape g) = c) by (destruct Hg; cbn; congruence).
  assert (Hck : mask <> [] -> snd (shape mask) = c) by (destruct Hk; cbn; congruence).
  destruct g as [|a g].
  { destruct mask; [reflexivity | discriminate]. }
  destruct mask as [|b mask]; [discriminate|].
  unfold mmul. rewrite Hcg, Hck by discriminate.
  rewrite !rectangular_intro by assumption.
  change (fst (shape (a :: g))) with (length (a :: g)).
  change (fst (shape (b :: mask))) with (length (b :: mask)).
  rewrite <- Hlen. unfold broadcastable. rewrite !Nat.eqb_refl. cbn [andb orb].
  rewrite !broadcast_dim_same.
  rewrite (stretch_id _ (a :: g)) by reflexivity.
  rewrite (stretch_id _ (b :: mask)) by (symmetry; exact Hlen).
  f_equal. apply zip_rows_same_length; assumption.
Qed.

(** Once a round has raised, the remaining rounds are not run. *)
Lemma reward_rounds_raised (mask : list (list F)) (l : list (nat * list (list F))) x :
  fold_left (reward_round mask) l (inl x) = inl x.
Proof. induction l as [|ig l IH]; [reflexivity | exact IH]. Qed.

(** The rounds for the groups from position [k] on, when each product is
    defined: they leave the entries below [k] alone and assign entry
    [k + i] for the [i]-th of them. *)
Lemma reward_rounds (mask : list (list F)) (mx : list (list (list F))) :
  Forall (fun g => exists product, mmul g mask = inr product) mx ->
  forall (k : nat) (sat pct : list F),
  exists r,
    fold_left (reward_round mask)
      (imap (fun i x => ((k + i)%nat, x)) mx) (inr (sat, pct)) = inr r /\
    length (fst r) = length sat /\ length (snd r) = length pct /\
    (forall j, (j < k)%nat -> fst r !! j = sat !! j /\ snd r !! j = pct !! j) /\
    (forall i g product, mx !! i = Some g -> mmul g mask = inr product ->
       (k + i < length sat)%nat -> (k + i < length pct)%nat ->
       fst r !! (k + i)%nat = Some (msum product) /\
       snd r !! (k + i)%nat = Some (fdiv (msum product) (msum g))).
Proof.
  induction 1 as [|g0 mx [p0 Hp0] _ IH]; intros k sat pct.
  - exists (sat, pct). cbn. repeat split; intros; discriminate.
  - cbn [imap fold_left].
    rewrite (imap_ext _ (fun i x => ((S k + i)%nat, x)))
      by (intros; cbn; f_equal; lia).
    assert (Hacc : reward_round mask (inr (sat, pct)) ((k + 0)%nat, g0)
       = inr (<[k := msum p0]> sat,
              <[k := fdiv (nth k (<[k := msum p0]> sat) fzero) (msum g0)]> pct)).
    { unfold reward_round, reward_body. cbn [fst snd]. rewrite Hp0, Nat.add_0_r.
      reflexivity. }
    rewrite Hacc.
    destruct (IH (S k) (<[k := msum p0]> sat)
                 (<[k := fdiv (nth k (<[k := msum p0]> sat) fzero) (msum g0)]> pct))
      as (r & Hr & Hl1 & Hl2 & Hlow & Hhigh).
    exists r. split; [exact Hr|].
    rewrite length_insert in Hl1, Hl2.
    split; [exact Hl1|]. split; [exact Hl2|]. split.
    + intros j Hj. destruct (Hlow j ltac:(lia)) as [-> ->].
      split; apply list_lookup_insert_ne; lia.
    + intros i g product Hg Hprod Hs Hp. destruct i as [|i]; cbn in Hg.
      * injection Hg as ->. rewrite Nat.add_0_r in *.
        assert (product = p0) as -> by congruence.
        destruct (Hlow k ltac:(lia)) as [-> ->].
        rewrite !list_lookup_insert_eq by assumption.
        rewrite nth_lookup, list_lookup_insert_eq by assumption.
        split; reflexivity.
      * replace (k + S i)%nat with (S k + i)%nat in * by lia.
        apply Hhigh; [assumption | assumption
                     | rewrite length_insert; lia | rewrite length_insert; lia].
Qed.

(** If the rounds have come to an end, every product was defined; if not,
    they have raised ValueError. *)
Lemma reward_rounds_defined (mask : list (list F)) (l : list (nat * list (list F))) :
  forall a r,
    fold_left (reward_round mask) l (inr a) = inr r ->
    Forall (fun ig => exists product, mmul (snd ig) mask = inr product) l.
Proof.
  induction l as [|ig l IH]; intros a r; cbn [fold_left]; [constructor|].
  unfold reward_round at 2. unfold reward_body.
  destruct (mmul (snd ig) mask) as [x|p] eqn:Hp.
  - rewrite reward_rounds_raised. discriminate.
  - intros Hr. constructor; [eauto | eapply IH, Hr].
Qed.

Lemma reward_rounds_error (mask : list (list F)) (l : list (nat * list (list F))) :
  forall a x,
    fold_left (reward_round mask) l (inr a) = inl x -> x = ValueError.
Proof.
  induction l as [|ig l IH]; intros a x; cbn [fold_left]; [discriminate|].
  unfold reward_round at 2. unfold reward_body.
  destruct (mmul (snd ig) mask) as [y|p] eqn:Hp.
  - rewrite reward_rounds_raised. intros [= <-]. eapply mmul_raises, Hp.
  - apply IH.
Qed.

Lemma reward_loop_entries (mask : list (list F)) (mx : list (list (list F))) :
  (forall g, g ∈ mx -> exists product, mmul g mask = inr product) ->
  let zeros := repeat fzero (length mx) in
  exists r,
    reward_loop mx mask (zeros, zeros) = inr r /\
    length (fst r) = length mx /\ length (snd r) = length mx /\
    forall i g product, mx !! i = Some g -> mmul g mask = inr product ->
      fst r !! i = Some (msum product) /\
      snd r !! i = Some (fdiv (msum product) (msum g)).
Proof.
  intros Hdef zeros.
  assert (Hall : Forall (fun g => exists product, mmul g mask = inr product) mx)
    by (apply Forall_forall; exact Hdef).
  destruct (reward_rounds mask mx Hall 0 zeros zeros)
    as (r & Hr & Hl1 & Hl2 & _ & Hent).
  exists r. subst zeros. rewrite repeat_length in *.
  split; [exact Hr|]. split; [assumption|]. split; [assumption|].
  intros i g product Hg Hprod. pose proof (lookup_lt_Some _ _ _ Hg) as Hi.
  apply (Hent i g product Hg Hprod); cbn; lia.
Qed.

Lemma reward_loop_defined (mask : list (list F)) (mx : list (list (list F))) init r :
  reward_loop mx mask init = inr r ->
  forall g, g ∈ mx -> exists product, mmul g mask = inr product.
Proof.
  unfold reward_loop, enumerate. intros Hr g Hg.
  apply reward_rounds_defined in Hr.
  apply list_elem_of_lookup in Hg as [i Hi].
  apply (Forall_lookup_1 _ _ i ((0 + i)%nat, g)) in Hr; [exact Hr|].
  rewrite list_lookup_imap, Hi. reflexivity.
Qed.

Lemma reward_loop_raises (mask : list (list F)) (mx : list (list (list F))) init x :
  reward_loop mx mask init = inl x -> x = ValueError.
Proof. apply reward_rounds_error. Qed.

(** [_calculate_reward] on a city without group matrices. *)
Lemma _calculate_reward_no_groups (e : Env F Rng) seg use_pct :
  group_od_mx (city e) = None \/ group_od_mx (city e) = Some [] ->
  _calculate_reward seg use_pct e = (inl AssertionError, e).
Proof.
  intros Hno. unfold _calculate_reward. run.
  destruct Hno as [-> | ->]; reflexivity.
Qed.

(** [_calculate_reward] on a city with group matrices [mx]. *)
Lemma _calculate_reward_covered (e : Env F Rng) seg use_pct mx :
  group_od_mx (city e) = Some mx -> mx <> [] ->
  seg ∈ covered_segments e ->
  _calculate_reward seg use_pct e = (inr (repeat fzero (length mx)), e).
Proof.
  intros Hmx Hne Hin. unfold _calculate_reward. run. rewrite Hmx.
  destruct mx as [|g mx]; [congruence|].
  rewrite bool_decide_eq_true_2 by assumption.
  rewrite np_zeros_length. reflexivity.
Qed.

Lemma _calculate_reward_fresh (e : Env F Rng) seg use_pct mx :
  group_od_mx (city e) = Some mx -> mx <> [] ->
  seg ∉ covered_segments e ->
  let zeros := repeat fzero (length mx) in
  _calculate_reward seg use_pct e
  = (match reward_loop mx (satisfied_od_mask (city e) seg) (zeros, zeros) with
     | inl x => inl x
     | inr r => inr (if use_pct then snd r else fst r)
     end,
     set_od_queries (od_queries e ++ [seg]) e).
Proof.
  intros Hmx Hne Hin. unfold _calculate_reward, query_satisfied_od_mask. run.
  rewrite Hmx. destruct mx as [|g mx]; [congruence|].
  rewrite bool_decide_eq_false_2 by assumption.
  rewrite np_zeros_length.
  destruct (reward_loop _ _ _); reflexivity.
Qed.
End Reward.

Section RewardClaims.
Context {F : Type} `{Float64 F} {Rng : Type} `{Generator Rng}.

(** C9. Without group matrices ([group_od_mx] missing or empty)
    [_calculate_reward] raises AssertionError and leaves every attribute,
    the history of [satisfied_od_mask] queries included, as it was; [step]
    then raises AssertionError too, having only counted the station. With
    at least one group matrix the assertion passes: [_calculate_reward]
    returns a vector, or raises the ValueError of a product
    [g_od * sat_od_mask] whose shapes do not fit, and never
    AssertionError. *)
Theorem reward_needs_group_data (e : Env F Rng) (seg : Z * Z) (use_pct : bool) :
  (group_od_mx (city e) = None \/ group_od_mx (city e) = Some [] ->
     _calculate_reward seg use_pct e = (inl AssertionError, e)
     /\ forall action d l,
          py_getitem _action_to_direction action = inr d ->
          _agent_location e = Some l ->
          step action e
          = (inl AssertionError, set_stations_placed (stations_placed e + 1) e))
  /\ (forall g mx, group_od_mx (city e) = Some (g :: mx) ->
        fst (_calculate_reward seg use_pct e) <> inl AssertionError
        /\ exists e',
             (exists r, _calculate_reward seg use_pct e = (inr r, e'))
             \/ _calculate_reward seg use_pct e = (inl ValueError, e')).
Proof.
  split.
  - intros Hno.
    split; [apply _calculate_reward_no_groups, Hno|].
    intros action d l Hd Hl. unfold step. run. rewrite Hd, Hl. cbn.
    rewrite _calculate_reward_no_groups by exact Hno. reflexivity.
  - intros g mx Hmx.
    destruct (decide (seg ∈ covered_segments e)) as [Hin | Hout].
    + rewrite (_calculate_reward_covered e seg use_pct (g :: mx)) by (auto; discriminate).
      split; [discriminate | eauto].
    + rewrite (_calculate_reward_fresh e seg use_pct (g :: mx)) by (auto; discriminate).
      cbn zeta.
      destruct (reward_loop _ _ _) as [x|r] eqn:Hloop.
      * apply reward_loop_raises in Hloop. subst x.
        split; [discriminate | eauto].
      * split; [discriminate | eauto].
Qed.

(** C3. For a segment that is not in [covered_segments], on a city with
    group matrices [mx] and with [mask] for [satisfied_od_mask(segment)]:
    a vector that [_calculate_reward] returns has one entry per group, the
    product [mx[i] * mask] is defined for every group [i], and entry [i] is
    [sum(mx[i] * mask) / sum(mx[i])]. The call returns when every product
    is defined, and raises ValueError when one is not. *)
Theorem reward_formula (e : Env F Rng) (seg : Z * Z) (mx : list (list (list F))) :
  group_od_mx (city e) = Some mx -> mx <> [] ->
  seg ∉ covered_segments e ->
  let mask := satisfied_od_mask (city e) seg in
  (forall reward e',
     _calculate_reward seg true e = (inr reward, e') ->
     length reward = length mx /\
     forall i g, mx !! i = Some g ->
       exists product,
         mmul g mask = inr product /\
         reward !! i = Some (fdiv (msum product) (msum g)))
  /\ ((forall g, g ∈ mx -> exists product, mmul g mask = inr product) ->
      exists reward e', _calculate_reward seg true e = (inr reward, e'))
  /\ (forall g, g ∈ mx -> mmul g mask = inl ValueError ->
      exists e', _calculate_reward seg true e = (inl ValueError, e')).
Proof.
  intros Hmx Hne Hout mask.
  rewrite (_calculate_reward_fresh e seg true mx Hmx Hne Hout). cbn zeta.
  fold mask. split; [|split].
  - intros reward e' Hret.
    destruct (reward_loop mx mask _) as [x|r] eqn:Hloop; [discriminate|].
    assert (reward = snd r) as -> by congruence.
    pose proof (reward_loop_defined _ _ _ _ Hloop) as Hdef.
    destruct (reward_loop_entries mask mx Hdef) as (r' & Hr' & _ & Hlen & Hent).
    cbn zeta in Hr'. assert (r' = r) as -> by congruence.
    split; [exact Hlen|].
    intros i g Hg.
    destruct (Hdef g (list_elem_of_lookup_2 _ _ _ Hg)) as [product Hprod].
    exists product. split; [exact Hprod | apply (Hent i g product Hg Hprod)].
  - intros Hdef.
    destruct (reward_loop_entries mask mx Hdef) as (r & Hr & _).
    cbn zeta in Hr. rewrite Hr. eauto.
  - intros g Hg Hbad.
    destruct (reward_loop mx mask _) as [x|r] eqn:Hloop.
    + apply reward_loop_raises in Hloop. subst x. eauto.
    + destruct (reward_loop_defined _ _ _ _ Hloop g Hg) as [product Hprod].
      congruence.
Qed.

(** C2. On a city with one matrix per group, [_calculate_reward] on a
    segment that is in [covered_segments] returns the zero vector of length
    [nr_groups]. After a [step] over the segment [from, to], both [from, to]
    and [to, from] are in [covered_segments], and a following [step] that
    moves back onto the cell [from] is rewarded with that zero vector. *)
Theorem no_double_credit (e : Env F Rng) (mx : list (list (list F))) :
  group_od_mx (city e) = Some mx -> mx <> [] ->
  Z.of_nat (length mx) = nr_groups e ->
  let zero := repeat fzero (Z.to_nat (nr_groups e)) in
  (forall seg use_pct, seg ∈ covered_segments e ->
     _calculate_reward seg use_pct e = (inr zero, e))
  /\ (forall action r1 e1 l,
        _agent_location e = Some l ->
        step action e = (inr r1, e1) ->
        exists l1,
          _agent_location e1 = Some l1 /\
          let from_idx := grid_to_vector (city e) l in
          let to_idx := grid_to_vector (city e) l1 in
          (from_idx, to_idx) ∈ covered_segments e1 /\
          (to_idx, from_idx) ∈ covered_segments e1 /\
          (forall seg use_pct,
             seg = (from_idx, to_idx) \/ seg = (to_idx, from_idx) ->
             _calculate_reward seg use_pct e1 = (inr zero, e1)) /\
          (forall action' d' obs reward terminated truncated info e2,
             py_getitem _action_to_direction action' = inr d' ->
             grid_to_vector (city e) (move l1 d') = from_idx ->
             step action' e1 = (inr (obs, reward, terminated, truncated, info), e2) ->
             reward = zero)).
Proof.
  intros Hmx Hne Hn zero.
  assert (Hz : forall (e0 : Env F Rng) seg use_pct,
            city e0 = city e -> seg ∈ covered_segments e0 ->
            _calculate_reward seg use_pct e0 = (inr zero, e0)).
  { intros e0 seg b Hc Hin. subst zero. rewrite <- Hn, Nat2Z.id.
    apply _calculate_reward_covered; [rewrite Hc|..]; assumption. }
  split; [intros; apply Hz; auto|].
  intros action r1 e1 l Hl Hstep.
  apply step_ok in Hstep
    as (d & l0 & rw & e2 & p & _ & Hl0 & Hr & _ & _ & He1 & _).
  assert (l0 = l) as -> by congruence.
  apply _calculate_reward_state in Hr.
  assert (Hc1 : city e1 = city e)
    by (rewrite He1; destruct Hr as [-> | ->]; reflexivity).
  assert (Hl1 : _agent_location e1 = Some (move l d))
    by (rewrite He1; reflexivity).
  assert (Hseg : covered_segments e1
            = (covered_segments e
                 ++ [(grid_to_vector (city e) l, grid_to_vector (city e) (move l d))])
                ++ [(grid_to_vector (city e) (move l d), grid_to_vector (city e) l)])
    by (rewrite He1; destruct Hr as [-> | ->]; reflexivity).
  assert (Hft : (grid_to_vector (city e) l, grid_to_vector (city e) (move l d))
                  ∈ covered_segments e1).
  { rewrite Hseg, !elem_of_app, !list_elem_of_singleton. auto. }
  assert (Htf : (grid_to_vector (city e) (move l d), grid_to_vector (city e) l)
                  ∈ covered_segments e1).
  { rewrite Hseg, !elem_of_app, !list_elem_of_singleton. auto. }
  exists (move l d). split; [exact Hl1|]. cbn zeta.
  split; [exact Hft|]. split; [exact Htf|]. split.
  - intros seg b [-> | ->]; apply Hz; assumption.
  - intros action' d' obs reward terminated truncated info e3 Hd' Hback Hstep'.
    apply step_ok in Hstep'
      as (d0 & l1 & rw' & e4 & p' & Hd0 & Hl1' & Hr' & _ & _ & _ & Hres).
    assert (d0 = d') as -> by congruence.
    assert (l1 = move l d) as -> by congruence.
    injection Hres as _ -> _ _ _.
    rewrite Hc1, Hback in Hr'.
    rewrite Hz in Hr'; [congruence | exact Hc1 | exact Htf].
Qed.
End RewardClaims.

(** ** The reward bound (C4) *)

Section RewardBound.
Context {F : Type} `{Float64Laws F} {Rng : Type} `{Generator Rng}.







End RewardBound.

(** ** Covered cells (C7) and the location views (C8) *)

Section Episodes.
Context {F : Type} `{Float64 F} {Rng : Type} `{Generator Rng}.

(** A legal action leads to a candidate cell that is not covered yet. *)
Lemma legal_not_covered (e : Env F Rng) l action d :
  mask_current e l -> legal e action ->
  py_getitem _action_to_direction action = inr d ->
  grid_to_vector (city e) (move l d) ∉ covered_cells_vid e.
Proof.
  unfold mask_current, legal. intros Hmask Hlegal Hd.
  apply py_getitem_lookup in Hlegal as (p & Hp & Hm).
  apply py_getitem_lookup in Hd as (q & Hq & Hd).
  rewrite Hmask in Hp, Hm. rewrite !length_map in Hp.
  assert (q = p) as -> by congruence.
  rewrite !list_lookup_fmap, Hd in Hm. cbn in Hm.
  injection Hm as Hm. apply b2z_one, allowed_true in Hm. tauto.
Qed.

Lemma episode_invariant (e : Env F Rng) visited :
  episode e visited ->
  covered_cells_gid e = visited
  /\ covered_cells_vid e = map (grid_to_vector (city e)) visited
  /\ NoDup (covered_cells_vid e)
  /\ exists l, _agent_location e = Some l /\ mask_current e l.
Proof.
  induction 1 as [e0 seed loc r e l Hreset Hl
                 | e visited action r e' l' _ IH Hlegal Hstep Hl'].
  - apply reset_ok in Hreset as (l0 & ea & p & _ & _ & _ & _ & _ & _ & He & _).
    assert (l0 = l) as -> by (rewrite He in Hl; cbn in Hl; congruence).
    rewrite He. repeat split.
    + apply NoDup_singleton.
    + exists l. split; reflexivity.
  - destruct IH as (Hgid & Hvid & Hnd & l & Hl & Hmask).
    apply step_ok in Hstep
      as (d & l0 & rw & e2 & p & Hd & Hl0 & Hr & _ & _ & He' & _).
    assert (l0 = l) as -> by congruence.
    pose proof (legal_not_covered e l action d Hmask Hlegal Hd) as Hfresh.
    apply _calculate_reward_state in Hr.
    assert (Hc : city e' = city e)
      by (rewrite He'; destruct Hr as [-> | ->]; reflexivity).
    assert (Hg' : covered_cells_gid e' = covered_cells_gid e ++ [move l d])
      by (rewrite He'; destruct Hr as [-> | ->]; reflexivity).
    assert (Hv' : covered_cells_vid e'
                  = covered_cells_vid e ++ [grid_to_vector (city e) (move l d)])
      by (rewrite He'; destruct Hr as [-> | ->]; reflexivity).
    assert (l' = move l d) as ->
      by (rewrite He' in Hl'; cbn in Hl'; congruence).
    rewrite Hc, Hg', Hv', Hgid, Hvid. repeat split.
    + rewrite map_app. reflexivity.
    + rewrite <- Hvid. apply NoDup_app. repeat split.
      * exact Hnd.
      * intros x Hx Hx'. apply list_elem_of_singleton in Hx'. subst x. auto.
      * apply NoDup_singleton.
    + exists (move l d). split; [rewrite He'; reflexivity|].
      unfold mask_current. rewrite He'.
      destruct Hr as [-> | ->]; reflexivity.
Qed.

(** C7. In an episode driven with legal actions, after [reset] and after
    every [step], the coordinate view of the covered cells is the sequence
    of visited locations in order of visit, the index view is the sequence
    of their indices, and neither view has a duplicate. *)
Theorem covered_cells_distinct_in_order (e : Env F Rng) (visited : list (Z * Z)) :
  episode e visited ->
  covered_cells_gid e = visited
  /\ covered_cells_vid e = map (grid_to_vector (city e)) visited
  /\ NoDup (covered_cells_vid e)
  /\ NoDup (covered_cells_gid e).
Proof.
  intros Hep.
  destruct (episode_invariant e visited Hep) as (Hgid & Hvid & Hnd & _).
  repeat split; try assumption.
  rewrite Hgid. rewrite Hvid in Hnd.
  clear -Hnd. induction visited as [|x xs IH]; [constructor|].
  cbn in Hnd. apply NoDup_cons in Hnd as [Hx Hxs].
  apply NoDup_cons. split; [|auto].
  intros Hin. apply Hx. apply list_elem_of_fmap. eauto.
Qed.
End Episodes.

Section LocationViews.
Context {F : Type} `{Float64 F} {Rng : Type} `{Generator Rng}.

Lemma fsum_zeros (n : nat) (a : F) :
  fadd a fzero = a -> fold_left fadd (repeat fzero n) a = a.
Proof.
  intros Ha. induction n as [|n IH]; cbn [repeat fold_left]; [reflexivity|].
  rewrite Ha. exact IH.
Qed.

(** The entries of a one-hot vector sum to 1, in an arithmetic where
    0 + 0 = 0, 0 + 1 = 1 and 1 + 0 = 1. *)
Lemma fsum_one_hot (n p : nat) :
  fadd fzero fzero = fzero -> fadd fzero fone = fone -> fadd fone fzero = fone ->
  (p < n)%nat ->
  fsum (<[p := fone]> (repeat fzero n)) = fone.
Proof.
  intros H00 H01 H10. unfold fsum. revert p.
  induction n as [|n IH]; intros p Hp; [lia|].
  destruct p as [|p]; cbn.
  - rewrite H01. apply fsum_zeros, H10.
  - rewrite H00. apply IH. lia.
Qed.

Lemma lookup_repeat {A} (x : A) (n k : nat) :
  (k < n)%nat -> repeat x n !! k = Some x.
Proof.
  revert k. induction n as [|n IH]; intros k Hk; [lia|].
  destruct k as [|k]; cbn; [reflexivity | apply IH; lia].
Qed.

Lemma one_hot_lookup (n p k : nat) :
  (p < n)%nat -> (k < n)%nat ->
  <[p := fone]> (repeat fzero n) !! k
  = Some (if decide (k = p) then fone else fzero).
Proof.
  intros Hp Hk. destruct (decide (k = p)) as [-> | Hne].
  - apply list_lookup_insert_eq. rewrite repeat_length. exact Hp.
  - rewrite list_lookup_insert_ne by congruence.
    apply lookup_repeat. exact Hk.
Qed.

(** C8. When [reset] or [step] returns, the three location attributes
    exist and agree: the index is [grid_to_vector] of the coordinate
    location; the vector has [grid_size] entries, all 0 except a single 1
    at the position that the index selects (the index itself when it is not
    negative; a negative index counts from the end); and its entries sum
    to 1. The observation returned carries these three values. *)
Theorem location_views_consistent (e e' : Env F Rng)
    (obs : Observation F) :
  (exists seed loc info, reset seed loc e = (inr (obs, info), e'))
  \/ (exists action reward terminated truncated info,
        step action e = (inr (obs, reward, terminated, truncated, info), e')) ->
  exists l vid vec p,
    _agent_location e' = Some l /\
    _agent_location_vid e' = Some vid /\
    _agent_location_vector e' = Some vec /\
    obs = {| location := l; location_vid := vid; location_vector := vec |} /\
    vid = grid_to_vector (city e') l /\
    Z.of_nat (length vec) = grid_size (city e') /\
    py_index (length vec) vid = Some p /\
    (0 <= vid -> p = Z.to_nat vid) /\
    (forall k, (k < length vec)%nat ->
       vec !! k = Some (if decide (k = p) then fone else fzero)) /\
    (fadd fzero fzero = fzero -> fadd fzero fone = fone ->
     fadd fone fzero = fone -> fsum vec = fone).
Proof.
  intros Hcall.
  assert (Hshape : exists l p,
    0 <= grid_size (city e') /\
    py_index (Z.to_nat (grid_size (city e'))) (grid_to_vector (city e') l) = Some p /\
    _agent_location e' = Some l /\
    _agent_location_vid e' = Some (grid_to_vector (city e') l) /\
    _agent_location_vector e'
    = Some (<[p := fone]> (repeat fzero (Z.to_nat (grid_size (city e'))))) /\
    obs = {| location := l;
             location_vid := grid_to_vector (city e') l;
             location_vector :=
               <[p := fone]> (repeat fzero (Z.to_nat (grid_size (city e')))) |}).
  { destruct Hcall as [(seed & loc & info & Hreset)
                      | (action & rw & tm & tr & info & Hstep)].
    - apply reset_ok in Hreset
        as (l & e0 & p & _ & Hc & _ & _ & Hn & Hp & He & Hres).
      injection Hres as -> _.
      assert (Hc' : city e' = city e) by (rewrite He; exact Hc).
      rewrite Hc'. exists l, p.
      repeat split; try assumption; rewrite He; cbn; rewrite ?Hc; reflexivity.
    - apply step_ok in Hstep
        as (d & l & rw' & e2 & p & _ & _ & Hr & Hn & Hp & He & Hres).
      injection Hres as -> _ _ _ _.
      apply _calculate_reward_state in Hr.
      assert (Hc : city e2 = city e) by (destruct Hr as [-> | ->]; reflexivity).
      assert (Hc' : city e' = city e) by (rewrite He; exact Hc).
      rewrite Hc'. exists (move l d), p.
      repeat split; try assumption; rewrite He; cbn; rewrite ?Hc; reflexivity. }
  destruct Hshape as (l & p & Hn & Hp & Hl & Hvid & Hvec & Hobs).
  set (n := Z.to_nat (grid_size (city e'))) in *.
  pose proof (py_index_lt _ _ _ Hp) as Hlt.
  assert (Hlen : length (<[p := fone]> (repeat fzero n)) = n)
    by (rewrite length_insert, repeat_length; reflexivity).
  exists l, (grid_to_vector (city e') l), (<[p := fone]> (repeat fzero n)), p.
  rewrite Hlen.
  split; [exact Hl|]. split; [exact Hvid|]. split; [exact Hvec|].
  split; [exact Hobs|]. split; [reflexivity|].
  split; [subst n; lia|]. split; [exact Hp|].
  split; [intros Hv; eapply py_index_nonneg; eassumption|].
  split; [intros k Hk; apply one_hot_lookup; assumption|].
  intros H00 H01 H10. apply fsum_one_hot; assumption.
Qed.
End LocationViews.

(** ** Start locations (C6) and seeded resets (C10) *)

Section ResetClaims.
Context {F : Type} `{Float64 F} {Rng : Type} `{Generator Rng}.

(** A start location given as a tuple is taken over: when [reset] returns,
    the agent is at that coordinate pair and the observation shows it. *)
Lemma reset_tuple_loc (e e' : Env F Rng) seed x y obs info :
  reset seed (LocTuple x y) e = (inr (obs, info), e') ->
  _agent_location e' = Some (x, y) /\ location obs = (x, y).
Proof.
  intros Hreset.
  apply reset_ok in Hreset as (l & e0 & p & Hstart & _ & _ & _ & _ & _ & He & Hres).
  unfold start_of in Hstart. run.
  destruct (gym_reset seed e) as [[ex|[]] ea]; [discriminate|].
  cbn in Hstart. injection Hstart as <- _.
  injection Hres as -> _. rewrite He. split; reflexivity.
Qed.

(** C6 (the array half fails). A start location given as a numpy array of
    two coordinates makes [reset] raise: [if loc:] asks the array for a
    truth value. [reset] never returns on such an argument; without a seed
    the exception is ValueError and no attribute has been assigned. *)
Theorem reset_array_loc_raises (e : Env F Rng) (seed : option Z) (x y : Z) :
  (forall r e', reset seed (LocArray x y) e <> (inr r, e'))
  /\ _agent_location (snd (reset seed (LocArray x y) e)) = _agent_location e
  /\ reset None (LocArray x y) e = (inl ValueError, e).
Proof.
  split; [|split].
  - intros r e' Hreset.
    apply reset_ok in Hreset as (l & e0 & p & Hstart & _).
    unfold start_of in Hstart. run.
    destruct (gym_reset seed e) as [[ex|[]] ea]; discriminate.
  - unfold reset. run.
    destruct (gym_reset seed e) as [[ex|[]] ea] eqn:Eg;
      apply gym_reset_state in Eg as [-> | [g ->]]; reflexivity.
  - reflexivity.
Qed.

(** C10. Two environments on the same city and with the same budget,
    whatever else their states are, answer [reset(seed=s)] without a start
    location alike: the same exception, or the same observation and info
    and the same location, covered cells, mask and generator afterwards. *)
Theorem reset_seed_deterministic (e1 e2 : Env F Rng) (s : Z) :
  city e1 = city e2 -> nr_stations e1 = nr_stations e2 ->
  let r1 := reset (Some s) LocNone e1 in
  let r2 := reset (Some s) LocNone e2 in
  fst r1 = fst r2
  /\ (forall r, fst r1 = inr r ->
        _agent_location (snd r1) = _agent_location (snd r2)
        /\ _agent_location_vid (snd r1) = _agent_location_vid (snd r2)
        /\ _agent_location_vector (snd r1) = _agent_location_vector (snd r2)
        /\ stations_placed (snd r1) = stations_placed (snd r2)
        /\ covered_cells_vid (snd r1) = covered_cells_vid (snd r2)
        /\ covered_cells_gid (snd r1) = covered_cells_gid (snd r2)
        /\ covered_segments (snd r1) = covered_segments (snd r2)
        /\ action_mask (snd r1) = action_mask (snd r2)
        /\ np_random (snd r1) = np_random (snd r2)).
Proof.
  intros Hc Hnr.
  destruct e1 as [c1 n1 sp1 cv1 cg1 cs1 am1 ng1 al1 av1 ac1 rng1 q1].
  destruct e2 as [c2 n2 sp2 cv2 cg2 cs2 am2 ng2 al2 av2 ac2 rng2 q2].
  cbn in Hc, Hnr. subst c2 n2. cbn zeta.
  unfold reset, gym_reset, np_random_integers, _update_agent_location,
    _update_action_mask, _get_obs, _get_info, observation_space_n, truth_value.
  run_state.
  destruct (seeding_np_random s) as [ex|g]; [split; [reflexivity | discriminate]|].
  destruct (integers g 0 (grid_x_size c1)) as [[ex|ax] g1];
    [split; [reflexivity | discriminate]|].
  cbn [fst snd].
  destruct (integers g1 0 (grid_y_size c1)) as [[ex|ay] g2];
    [split; [reflexivity | discriminate]|].
  cbn [fst snd].
  destruct (np_zeros (grid_size c1)) as [ex|zeros];
    [split; [reflexivity | discriminate]|].
  destruct (py_setitem zeros (grid_to_vector c1 (ax, ay)) fone) as [ex|vec];
    [split; [reflexivity | discriminate]|].
  split; [reflexivity|]. intros r _. repeat split.
Qed.
End ResetClaims.

(** * Further properties of the environment *)

(** ** What [reset] and [step] assign *)

Section Transitions.
Context {F : Type} `{Float64 F} {Rng : Type} `{Generator Rng}.

(** [_update_agent_location] returns when the index of the new location
    selects an entry of the one-hot vector. *)
Lemma _update_agent_location_returns (e : Env F Rng) l p :
  0 <= grid_size (city e) ->
  py_index (Z.to_nat (grid_size (city e))) (grid_to_vector (city e) l) = Some p ->
  _update_agent_location l e
  = (inr tt,
     set_agent_location_vector
       (Some (<[p := fone]> (repeat fzero (Z.to_nat (grid_size (city e))))))
       (set_agent_location_vid (Some (grid_to_vector (city e) l))
          (set_agent_location (Some l) e))).
Proof.
  intros Hn Hp. unfold _update_agent_location, observation_space_n.
  cbv beta iota zeta delta [bind lift get modify ret].
  change (city (set_agent_location (Some l) e)) with (city e).
  unfold np_zeros. destruct (grid_size (city e) <? 0) eqn:E;
    [apply Z.ltb_lt in E; lia|].
  unfold py_setitem. rewrite repeat_length, Hp. reflexivity.
Qed.

(** The converse of [step_ok]: when the action indexes a direction, the
    agent has a location, the reward is computed and the index of the new
    location selects an entry of the one-hot vector, [step] returns. *)
Lemma step_returns (e e2 : Env F Rng) action d l reward p :
  py_getitem _action_to_direction action = inr d ->
  _agent_location e = Some l ->
  _calculate_reward
    (grid_to_vector (city e) l, grid_to_vector (city e) (move l d)) true
    (set_stations_placed (stations_placed e + 1) e) = (inr reward, e2) ->
  0 <= grid_size (city e) ->
  py_index (Z.to_nat (grid_size (city e)))
           (grid_to_vector (city e) (move l d)) = Some p ->
  step action e
  = (inr ({| location := move l d;
             location_vid := grid_to_vector (city e) (move l d);
             location_vector :=
               <[p := fone]> (repeat fzero (Z.to_nat (grid_size (city e)))) |},
          reward,
          (nr_stations e <=? stations_placed e + 1)
          || (np_sum (action_mask (stepped e2 l d p)) =? 0),
          false,
          {| segments := covered_segments (stepped e2 l d p);
             info_action_mask := action_mask (stepped e2 l d p) |}),
     stepped e2 l d p).
Proof.
  intros Hd Hl Hr Hn Hp.
  pose proof (_calculate_reward_state _ _ _ _ _ Hr) as Hst.
  unfold step.
  cbv beta iota zeta delta [bind lift get modify ret attr raise].
  rewrite Hd, Hl, Hr.
  rewrite (_update_agent_location_returns _ (move l d) p);
    [| destruct Hst as [-> | ->]; exact Hn | destruct Hst as [-> | ->]; exact Hp].
  unfold _update_action_mask, _get_obs, _get_info.
  destruct Hst as [-> | ->]; reflexivity.
Qed.

(** What a call of [step] that returns has assigned. *)
Lemma step_fields (e e' : Env F Rng) action r :
  step action e = (inr r, e') ->
  exists d l,
    py_getitem _action_to_direction action = inr d /\
    _agent_location e = Some l /\
    _agent_location e' = Some (move l d) /\
    city e' = city e /\ nr_stations e' = nr_stations e /\
    nr_groups e' = nr_groups e /\
    stations_placed e' = stations_placed e + 1 /\
    covered_segments e'
    = covered_segments e
        ++ [(grid_to_vector (city e) l, grid_to_vector (city e) (move l d));
            (grid_to_vector (city e) (move l d), grid_to_vector (city e) l)] /\
    covered_cells_vid e'
    = covered_cells_vid e ++ [grid_to_vector (city e) (move l d)] /\
    covered_cells_gid e' = covered_cells_gid e ++ [move l d] /\
    mask_current e' (move l d) /\
    snd r = {| segments := covered_segments e';
               info_action_mask := action_mask e' |}.
Proof.
  intros Hstep.
  apply step_ok in Hstep
    as (d & l & rw & e2 & p & Hd & Hl & Hr & _ & _ & He' & Hres).
  apply _calculate_reward_state in Hr.
  exists d, l. split; [exact Hd|]. split; [exact Hl|].
  rewrite Hres, He'. unfold mask_current.
  destruct Hr as [-> | ->]; cbn [snd];
    (split; [reflexivity|]); (split; [reflexivity|]); (split; [reflexivity|]);
    (split; [reflexivity|]); (split; [reflexivity|]);
    (split; [symmetry; apply (app_assoc _ [_] [_])|]);
    repeat (split; [reflexivity|]); reflexivity.
Qed.

(** What a call of [reset] that returns has assigned. *)
Lemma reset_fields (e e' : Env F Rng) seed loc r :
  reset seed loc e = (inr r, e') ->
  exists l,
    _agent_location e' = Some l /\
    city e' = city e /\ nr_stations e' = nr_stations e /\
    od_queries e' = od_queries e /\
    stations_placed e' = 1 /\
    covered_segments e' = [] /\
    covered_cells_vid e' = [grid_to_vector (city e) l] /\
    covered_cells_gid e' = [l] /\
    mask_current e' l /\
    location (fst r) = l /\
    snd r = {| segments := []; info_action_mask := action_mask e' |}.
Proof.
  intros Hreset.
  apply reset_ok in Hreset
    as (l & e0 & p & _ & Hc & Hnr & Hq & _ & _ & He' & Hres).
  exists l. rewrite Hres, He'. unfold mask_current, restarted. cbn.
  rewrite Hc, Hnr, Hq. repeat split.
Qed.

(** Every history keeps the counters and the covered lists in step. *)
Lemma history_invariant (e : Env F Rng) k :
  history e k ->
  stations_placed e = 1 + Z.of_nat k
  /\ covered_cells_vid e = map (grid_to_vector (city e)) (covered_cells_gid e)
  /\ length (covered_cells_gid e) = S k
  /\ length (covered_segments e) = (2 * k)%nat
  /\ (forall a b, (a, b) ∈ covered_segments e ->
        (b, a) ∈ covered_segments e
        /\ a ∈ covered_cells_vid e /\ b ∈ covered_cells_vid e)
  /\ exists l, _agent_location e = Some l /\ mask_current e l
               /\ grid_to_vector (city e) l ∈ covered_cells_vid e.
Proof.
  induction 1 as [e0 seed loc r e Hreset | e k action r e' _ IH Hstep].
  - apply reset_fields in Hreset
      as (l & Hl & Hc & _ & _ & Hsp & Hseg & Hvid & Hgid & Hmask & _).
    rewrite Hsp, Hseg, Hvid, Hgid, Hc.
    split; [reflexivity|]. split; [reflexivity|]. split; [reflexivity|].
    split; [reflexivity|]. split.
    + intros a b Hin. apply elem_of_nil in Hin. destruct Hin.
    + exists l. split; [exact Hl|]. split; [exact Hmask|].
      apply list_elem_of_singleton. reflexivity.
  - destruct IH as (Hsp & Hvid & Hlen & Hslen & Hsym & l0 & Hl0 & _ & Hin0).
    apply step_fields in Hstep
      as (d & l & Hd & Hl & Hl' & Hc & _ & _ & Hsp' & Hseg' & Hvid' & Hgid'
          & Hmask' & _).
    assert (l0 = l) as -> by congruence.
    rewrite Hsp', Hseg', Hvid', Hgid', Hc.
    split; [lia|].
    split; [rewrite map_app, Hvid; reflexivity|].
    split; [rewrite length_app, Hlen; cbn; lia|].
    split; [rewrite length_app, Hslen; cbn; lia|].
    split.
    + intros a b Hin. rewrite !elem_of_app in *.
      destruct Hin as [Hin | Hin].
      * destruct (Hsym a b Hin) as (H1 & H2 & H3). auto.
      * apply elem_of_cons in Hin as [Heq | Hin];
          [|apply list_elem_of_singleton in Hin as Heq];
          injection Heq as -> ->;
          (split; [right; rewrite !elem_of_cons; auto|]);
          rewrite !list_elem_of_singleton; auto.
    + exists (move l d). split; [exact Hl'|]. split; [exact Hmask'|].
      rewrite elem_of_app, list_elem_of_singleton. auto.
Qed.
End Transitions.

Section Counters.
Context {F : Type} `{Float64 F} {Rng : Type} `{Generator Rng}.

(** X1. [reset] starts a new episode whatever the state before: when it
    returns, one station is placed, the covered cells are the start cell
    alone (in both views), no segment is covered, and the info it returns
    carries an empty segment list and the new mask. City, budget and the
    record of mask queries are left alone. *)
Theorem reset_starts_episode (e e' : Env F Rng) seed loc obs info :
  reset seed loc e = (inr (obs, info), e') ->
  stations_placed e' = 1
  /\ _agent_location e' = Some (location obs)
  /\ covered_cells_gid e' = [location obs]
  /\ covered_cells_vid e' = [grid_to_vector (city e) (location obs)]
  /\ covered_segments e' = []
  /\ segments info = []
  /\ info_action_mask info = action_mask e'
  /\ city e' = city e /\ nr_stations e' = nr_stations e
  /\ od_queries e' = od_queries e.
Proof.
  intros Hreset.
  apply reset_fields in Hreset
    as (l & Hl & Hc & Hnr & Hq & Hsp & Hseg & Hvid & Hgid & _ & Hobs & Hinfo).
  cbn in Hobs, Hinfo. subst l info. cbn. repeat split; assumption.
Qed.

(** X2. A [step] that returns appends exactly two segments, the move and
    its reverse in this order, and the cell moved to to each view of the
    covered cells; the info it returns carries the whole segment list. *)
Theorem step_appends (e e' : Env F Rng) action obs reward
    (terminated truncated : bool) info :
  step action e = (inr (obs, reward, terminated, truncated, info), e') ->
  exists l d,
    _agent_location e = Some l /\
    py_getitem _action_to_direction action = inr d /\
    location obs = move l d /\
    covered_segments e'
    = covered_segments e
        ++ [(grid_to_vector (city e) l, grid_to_vector (city e) (move l d));
            (grid_to_vector (city e) (move l d), grid_to_vector (city e) l)] /\
    length (covered_segments e') = (length (covered_segments e) + 2)%nat /\
    covered_cells_vid e'
    = covered_cells_vid e ++ [grid_to_vector (city e) (move l d)] /\
    covered_cells_gid e' = covered_cells_gid e ++ [move l d] /\
    segments info = covered_segments e'.
Proof.
  intros Hstep.
  pose proof (step_fields _ _ _ _ Hstep)
    as (d & l & Hd & Hl & _ & _ & _ & _ & _ & Hseg & Hvid & Hgid & _ & Hinfo).
  apply step_ok in Hstep
    as (d0 & l0 & rw & e2 & p & Hd0 & Hl0 & _ & _ & _ & _ & Hres).
  assert (d0 = d) as -> by congruence.
  assert (l0 = l) as -> by congruence.
  injection Hres as -> _ _ _ _.
  cbn in Hinfo. subst info.
  exists l, d. rewrite Hseg, Hvid, Hgid.
  repeat split; try assumption.
  rewrite length_app. reflexivity.
Qed.

(** X3. After a [reset] and [k] steps that returned, [stations_placed] is
    [1 + k], each view of the covered cells has [1 + k] entries, the index
    view is [grid_to_vector] of the coordinate view entry by entry, and
    [2 * k] segments are covered. *)
Theorem history_counters (e : Env F Rng) (k : nat) :
  history e k ->
  stations_placed e = 1 + Z.of_nat k
  /\ length (covered_cells_gid e) = S k
  /\ length (covered_cells_vid e) = S k
  /\ covered_cells_vid e = map (grid_to_vector (city e)) (covered_cells_gid e)
  /\ length (covered_segments e) = (2 * k)%nat.
Proof.
  intros Hh.
  destruct (history_invariant e k Hh) as (Hsp & Hvid & Hlen & Hslen & _).
  repeat split; try assumption.
  rewrite Hvid, length_map. exact Hlen.
Qed.

(** X4. After a [reset] and any steps that returned, the covered segments
    are closed under reversal, and both ends of every covered segment are
    indices of covered cells. *)
Theorem covered_segments_symmetric (e : Env F Rng) (k : nat) (a b : Z) :
  history e k ->
  (a, b) ∈ covered_segments e ->
  (b, a) ∈ covered_segments e
  /\ a ∈ covered_cells_vid e /\ b ∈ covered_cells_vid e.
Proof.
  intros Hh Hin.
  destruct (history_invariant e k Hh) as (_ & _ & _ & _ & Hsym & _).
  exact (Hsym a b Hin).
Qed.

(** X5. The [k + 1]-st step of an episode reports [terminated] exactly when
    the budget is at most [k + 2] stations or the new mask is all 0: with a
    budget of [n] stations an episode ends with step [n - 1] at the latest,
    and with a budget of at most 2 the first step ends it. *)
Theorem budget_ends_episode (e e' : Env F Rng) (k : nat) action obs reward
    (terminated truncated : bool) info :
  history e k ->
  step action e = (inr (obs, reward, terminated, truncated, info), e') ->
  (terminated = true <->
     nr_stations e <= Z.of_nat k + 2
     \/ Forall (fun m => m = 0) (action_mask e')).
Proof.
  intros Hh Hstep.
  destruct (history_invariant e k Hh) as (Hsp & _).
  pose proof (step_fields _ _ _ _ Hstep)
    as (d & l & _ & _ & _ & _ & Hnr & _ & Hsp' & _ & _ & _ & Hmask & _).
  apply step_ok in Hstep
    as (d0 & l0 & rw & e2 & p & _ & _ & _ & _ & _ & _ & Hres).
  injection Hres as _ _ -> _ _.
  rewrite orb_true_iff, Z.leb_le, Z.eqb_eq, Hnr, Hsp', Hsp.
  unfold mask_current in Hmask.
  assert (Hsum : np_sum (action_mask e') = 0
                 <-> Forall (fun m => m = 0) (action_mask e'))
    by (rewrite Hmask; apply np_sum_zero, mask_bits).
  rewrite Hsum.
  split; (intros [Hb | Hz]; [left; lia | right; exact Hz]).
Qed.
End Counters.

(** ** Actions at the edge *)

Ltac split_comparisons :=
  repeat match goal with
         | |- context [?a <=? ?b] => destruct (Z.leb_spec a b)
         | |- context [?a <? ?b] => destruct (Z.ltb_spec a b)
         end;
  cbn [andb]; try lia.

Section Actions.
Context {F : Type} `{Float64 F} {Rng : Type} `{Generator Rng}.

Lemma direction_of_negative (action : Z) :
  -8 <= action < 0 ->
  py_getitem _action_to_direction action
  = py_getitem _action_to_direction (action + 8).
Proof.
  intros Ha. unfold py_getitem, py_index. cbn [length _action_to_direction].
  change (Z.of_nat 8) with 8. split_comparisons; reflexivity.
Qed.

Lemma direction_out_of_range (action : Z) :
  action < -8 \/ 8 <= action ->
  py_getitem _action_to_direction action = inl IndexError.
Proof.
  intros Ha. unfold py_getitem, py_index. cbn [length _action_to_direction].
  change (Z.of_nat 8) with 8. split_comparisons; reflexivity.
Qed.

Lemma direction_in_range (action : Z) :
  -8 <= action < 8 ->
  exists d, py_getitem _action_to_direction action = inr d.
Proof.
  intros Ha.
  assert (Hcases : action = -8 \/ action = -7 \/ action = -6 \/ action = -5
                   \/ action = -4 \/ action = -3 \/ action = -2 \/ action = -1
                   \/ action = 0 \/ action = 1 \/ action = 2 \/ action = 3
                   \/ action = 4 \/ action = 5 \/ action = 6 \/ action = 7)
    by lia.
  repeat (destruct Hcases as [-> | Hcases]; [eexists; reflexivity|]).
  subst action. eexists; reflexivity.
Qed.

(** X6. A negative action from -8 to -1 is taken as the action 8 above it
    (numpy counts a negative index from the end of [_action_to_direction]):
    [step] returns the same and leaves the same state. *)
Theorem step_negative_action (e : Env F Rng) (action : Z) :
  -8 <= action < 0 ->
  step action e = step (action + 8) e.
Proof.
  intros Ha. unfold step, _update_action_mask.
  rewrite (direction_of_negative action Ha). reflexivity.
Qed.

(** X7. [step] raises before it assigns anything when the action is
    outside [-8, 8) (IndexError) and, for an action inside, when no [reset]
    has given the agent a location, as on a newly constructed environment
    (AttributeError). *)
Theorem step_rejects_early (e : Env F Rng) (action : Z) :
  (action < -8 \/ 8 <= action -> step action e = (inl IndexError, e))
  /\ (-8 <= action < 8 -> _agent_location e = None ->
      step action e = (inl AttributeError, e))
  /\ (-8 <= action < 8 ->
      forall c nr rng, __init__ c nr rng = inr e ->
        step action e = (inl AttributeError, e)).
Proof.
  assert (Hnone : -8 <= action < 8 -> _agent_location e = None ->
                  step action e = (inl AttributeError, e)).
  { intros Ha Hl. destruct (direction_in_range action Ha) as [d Hd].
    unfold step. cbv beta iota zeta delta [bind lift get modify ret attr raise].
    rewrite Hd, Hl. reflexivity. }
  split; [|split].
  - intros Ha. unfold step.
    cbv beta iota zeta delta [bind lift get modify ret attr raise].
    rewrite (direction_out_of_range action Ha). reflexivity.
  - exact Hnone.
  - intros Ha c nr rng Hinit. apply Hnone; [exact Ha|].
    unfold __init__ in Hinit.
    destruct (grid_size c <=? 0); [discriminate|].
    destruct (groups c); [|discriminate].
    injection Hinit as <-. reflexivity.
Qed.

(** [_update_agent_location] raises IndexError when the index of the new
    location selects no entry of the one-hot vector; the location and its
    index are assigned by then and the vector is all zeros. *)
Lemma _update_agent_location_raises (e : Env F Rng) l :
  0 <= grid_size (city e) ->
  py_index (Z.to_nat (grid_size (city e))) (grid_to_vector (city e) l) = None ->
  _update_agent_location l e
  = (inl IndexError,
     set_agent_location_vector
       (Some (repeat fzero (Z.to_nat (grid_size (city e)))))
       (set_agent_location_vid (Some (grid_to_vector (city e) l))
          (set_agent_location (Some l) e))).
Proof.
  intros Hn Hp. unfold _update_agent_location, observation_space_n.
  cbv beta iota zeta delta [bind lift get modify ret].
  change (city (set_agent_location (Some l) e)) with (city e).
  unfold np_zeros. destruct (grid_size (city e) <? 0) eqn:E;
    [apply Z.ltb_lt in E; lia|].
  unfold py_setitem. rewrite repeat_length, Hp. reflexivity.
Qed.

(** X8. A move to a location whose index selects no entry of the one-hot
    vector makes [step] raise IndexError half-way: the station is counted
    and the segments and the cell are appended, the location is the new one
    and its vector is all zeros, but the action mask is the one from before
    the call. *)
Theorem step_off_vector_raises (e e2 : Env F Rng) action d l reward :
  py_getitem _action_to_direction action = inr d ->
  _agent_location e = Some l ->
  _calculate_reward
    (grid_to_vector (city e) l, grid_to_vector (city e) (move l d)) true
    (set_stations_placed (stations_placed e + 1) e) = (inr reward, e2) ->
  0 <= grid_size (city e) ->
  py_index (Z.to_nat (grid_size (city e)))
           (grid_to_vector (city e) (move l d)) = None ->
  exists e',
    step action e = (inl IndexError, e') /\
    stations_placed e' = stations_placed e + 1 /\
    covered_segments e'
    = covered_segments e
        ++ [(grid_to_vector (city e) l, grid_to_vector (city e) (move l d));
            (grid_to_vector (city e) (move l d), grid_to_vector (city e) l)] /\
    covered_cells_vid e'
    = covered_cells_vid e ++ [grid_to_vector (city e) (move l d)] /\
    covered_cells_gid e' = covered_cells_gid e ++ [move l d] /\
    _agent_location e' = Some (move l d) /\
    _agent_location_vid e' = Some (grid_to_vector (city e) (move l d)) /\
    _agent_location_vector e'
    = Some (repeat fzero (Z.to_nat (grid_size (city e)))) /\
    action_mask e' = action_mask e.
Proof.
  intros Hd Hl Hr Hn Hp.
  pose proof (_calculate_reward_state _ _ _ _ _ Hr) as Hst.
  unfold step.
  cbv beta iota zeta delta [bind lift get modify ret attr raise].
  rewrite Hd, Hl, Hr.
  rewrite (_update_agent_location_raises _ (move l d));
    [| destruct Hst as [-> | ->]; exact Hn | destruct Hst as [-> | ->]; exact Hp].
  eexists. split; [reflexivity|].
  destruct Hst as [-> | ->]; cbn;
    (split; [reflexivity|]); (split; [symmetry; apply (app_assoc _ [_] [_])|]);
    repeat (split; [reflexivity|]); reflexivity.
Qed.
End Actions.

(** ** Legal actions *)

Section LegalSteps.
Context {F : Type} `{Float64 F} {Rng : Type} `{Generator Rng}.

(** A legal action indexes a direction whose candidate cell the mask
    computation allowed. *)
Lemma legal_allowed (e : Env F Rng) l action :
  mask_current e l -> legal e action ->
  exists d, py_getitem _action_to_direction action = inr d
            /\ allowed (city e) (covered_cells_vid e) (move l d) = true.
Proof.
  unfold mask_current, legal. intros Hmask Hlegal.
  apply py_getitem_lookup in Hlegal as (p & Hp & Hm).
  rewrite Hmask in Hp, Hm. rewrite !length_map in Hp.
  rewrite !list_lookup_fmap in Hm.
  destruct (_action_to_direction !! p) as [d|] eqn:Hd; [|discriminate].
  cbn in Hm. injection Hm as Hm. apply b2z_one in Hm.
  exists d. split; [|exact Hm].
  unfold py_getitem. rewrite Hp, Hd. reflexivity.
Qed.

Lemma allowed_in_grid (c : City F) covered p :
  allowed c covered p = true ->
  in_grid c p /\ grid_to_vector c p ∉ covered.
Proof. rewrite allowed_true. unfold in_grid. tauto. Qed.

(** [_calculate_reward] returns whenever the city has group matrices and
    the mask of the segment can be multiplied with each of them. *)
Lemma _calculate_reward_returns (e : Env F Rng) seg use_pct g mx :
  group_od_mx (city e) = Some (g :: mx) ->
  (forall g0, g0 ∈ g :: mx ->
     exists product, mmul g0 (satisfied_od_mask (city e) seg) = inr product) ->
  exists r e', _calculate_reward seg use_pct e = (inr r, e').
Proof.
  intros Hmx Hdef. destruct (decide (seg ∈ covered_segments e)) as [Hin | Hout].
  - rewrite (_calculate_reward_covered e seg use_pct (g :: mx))
      by (auto; discriminate).
    eauto.
  - rewrite (_calculate_reward_fresh e seg use_pct (g :: mx))
      by (auto; discriminate).
    destruct (reward_loop_entries _ _ Hdef) as (r & Hr & _).
    cbn zeta in *. rewrite Hr. eauto.
Qed.

(** [_calculate_reward] neither reads nor assigns the action mask. *)
Lemma _calculate_reward_mask (e e2 : Env F Rng) seg use_pct r m :
  _calculate_reward seg use_pct e = (r, e2) ->
  _calculate_reward seg use_pct (set_action_mask m e)
  = (r, set_action_mask m e2).
Proof.
  unfold _calculate_reward, query_satisfied_od_mask.
  cbv beta iota zeta delta [bind lift get modify ret raise].
  change (city (set_action_mask m e)) with (city e).
  change (covered_segments (set_action_mask m e)) with (covered_segments e).
  destruct (group_od_mx (city e)) as [[|g mx]|];
    try (intros [= <- <-]; reflexivity).
  destruct (bool_decide _); [intros [= <- <-]; reflexivity|].
  destruct (np_zeros _); [intros [= <- <-]; reflexivity|].
  destruct (reward_loop _ _ _); intros [= <- <-]; reflexivity.
Qed.

(** X9. After a [reset] and any steps that returned, a [step] with an
    action that the mask marks legal moves the agent to a cell of the grid
    whose index is not among the covered cells. *)
Theorem legal_step_in_grid (e e' : Env F Rng) (k : nat) action obs reward
    (terminated truncated : bool) info :
  history e k -> legal e action ->
  step action e = (inr (obs, reward, terminated, truncated, info), e') ->
  in_grid (city e) (location obs)
  /\ grid_to_vector (city e) (location obs) ∉ covered_cells_vid e.
Proof.
  intros Hh Hlegal Hstep.
  destruct (history_invariant e k Hh) as (_ & _ & _ & _ & _ & l & Hl & Hmask & _).
  destruct (legal_allowed e l action Hmask Hlegal) as (d & Hd & Hok).
  apply step_ok in Hstep
    as (d0 & l0 & rw & e2 & p & Hd0 & Hl0 & _ & _ & _ & _ & Hres).
  assert (d0 = d) as -> by congruence.
  assert (l0 = l) as -> by congruence.
  injection Hres as -> _ _ _ _. cbn [location].
  apply allowed_in_grid. exact Hok.
Qed.

(** X10. After a [reset] and any steps that returned, a [step] with a
    legal action never takes the zero-reward branch: its segment is not
    covered yet, [satisfied_od_mask] is queried for it once, the product
    [g * mask] of every group matrix with that mask is defined, and every
    group is paid its fraction [sum(g * mask) / sum(g)]. *)
Theorem legal_step_rewarded (e e' : Env F Rng) (k : nat) action obs reward
    (terminated truncated : bool) info :
  history e k -> legal e action ->
  step action e = (inr (obs, reward, terminated, truncated, info), e') ->
  exists l mx,
    _agent_location e = Some l /\
    group_od_mx (city e) = Some mx /\
    (let seg := (grid_to_vector (city e) l,
                 grid_to_vector (city e) (location obs)) in
     (seg ∉ covered_segments e) /\
     od_queries e' = od_queries e ++ [seg] /\
     length reward = length mx /\
     forall i g, mx !! i = Some g ->
       exists product,
         mmul g (satisfied_od_mask (city e) seg) = inr product /\
         reward !! i = Some (fdiv (msum product) (msum g))).
Proof.
  intros Hh Hlegal Hstep.
  destruct (history_invariant e k Hh)
    as (_ & _ & _ & _ & Hends & l & Hl & Hmask & _).
  destruct (legal_allowed e l action Hmask Hlegal) as (d & Hd & Hok).
  apply allowed_in_grid in Hok as [_ Hnew].
  apply step_ok in Hstep
    as (d0 & l0 & rw & e2 & p & Hd0 & Hl0 & Hr & _ & _ & He' & Hres).
  assert (d0 = d) as -> by congruence.
  assert (l0 = l) as -> by congruence.
  injection Hres as -> -> _ _ _. cbn [location].
  set (seg := (grid_to_vector (city e) l, grid_to_vector (city e) (move l d))) in *.
  set (e1 := set_stations_placed (stations_placed e + 1) e) in *.
  assert (Hout : seg ∉ covered_segments e1).
  { intros Hin. destruct (Hends _ _ Hin) as (_ & _ & Hto). auto. }
  destruct (group_od_mx (city e)) as [[|g mx]|] eqn:Hmx.
  - rewrite (_calculate_reward_no_groups e1 seg true (or_intror Hmx)) in Hr.
    discriminate.
  - rewrite (_calculate_reward_fresh e1 seg true (g :: mx) Hmx
               ltac:(discriminate) Hout) in Hr.
    apply pair_equal_spec in Hr as [Hrw He2]. cbn zeta in Hrw.
    destruct (reward_loop (g :: mx) _ _) as [x|r] eqn:Hloop; [discriminate|].
    assert (rw = snd r) as -> by congruence.
    pose proof (reward_loop_defined _ _ _ _ Hloop) as Hdef.
    destruct (reward_loop_entries _ _ Hdef) as (r' & Hr' & _ & Hlen & Hent).
    cbn zeta in Hr'. assert (r' = r) as -> by congruence.
    exists l, (g :: mx). split; [assumption|]. split; [reflexivity|].
    split; [exact Hout|].
    split; [rewrite He', <- He2; reflexivity|].
    split; [exact Hlen|].
    intros i g0 Hg.
    destruct (Hdef g0 (list_elem_of_lookup_2 _ _ _ Hg)) as [product Hprod].
    exists product. split; [exact Hprod | apply (Hent i g0 product Hg Hprod)].
  - rewrite (_calculate_reward_no_groups e1 seg true (or_introl Hmx)) in Hr.
    discriminate.
Qed.

(** X11. On a city with group matrices, each of which can be multiplied
    with the mask of every segment (the shapes fit), and whose
    [grid_to_vector] sends the cells of the grid to indices from 0 up to
    [grid_size], a [step] with a legal action returns: it raises nothing. *)
Theorem legal_step_returns (e : Env F Rng) (k : nat) action g mx :
  history e k -> legal e action ->
  group_od_mx (city e) = Some (g :: mx) ->
  (forall seg g0, g0 ∈ g :: mx ->
     exists product, mmul g0 (satisfied_od_mask (city e) seg) = inr product) ->
  (forall p, in_grid (city e) p ->
     0 <= grid_to_vector (city e) p < grid_size (city e)) ->
  exists r e', step action e = (inr r, e').
Proof.
  intros Hh Hlegal Hmx Hdef Hrange.
  destruct (history_invariant e k Hh) as (_ & _ & _ & _ & _ & l & Hl & Hmask & _).
  destruct (legal_allowed e l action Hmask Hlegal) as (d & Hd & Hok).
  apply allowed_in_grid in Hok as [Hin _].
  pose proof (Hrange _ Hin) as Hidx.
  destruct (_calculate_reward_returns
              (set_stations_placed (stations_placed e + 1) e)
              (grid_to_vector (city e) l, grid_to_vector (city e) (move l d))
              true g mx Hmx (Hdef _)) as (rw & e2 & Hr).
  eexists _, _.
  apply (step_returns e e2 action d l rw
           (Z.to_nat (grid_to_vector (city e) (move l d))) Hd Hl Hr);
    [lia|].
  unfold py_index. rewrite Z2Nat.id by lia. split_comparisons. reflexivity.
Qed.

(** X12. [step] does not consult the action mask: a call that returns
    would have returned the same, and left the same state, had the mask
    been any other. *)
Theorem mask_is_advisory (e e' : Env F Rng) action r (m : list Z) :
  step action e = (inr r, e') ->
  step action (set_action_mask m e) = (inr r, e').
Proof.
  intros Hstep.
  apply step_ok in Hstep
    as (d & l & rw & e2 & p & Hd & Hl & Hr & Hn & Hp & He' & Hres).
  pose proof (_calculate_reward_state _ _ _ _ _ Hr) as Hst.
  apply (_calculate_reward_mask _ _ _ _ _ m) in Hr.
  rewrite (step_returns (set_action_mask m e) (set_action_mask m e2)
             action d l rw p Hd Hl Hr Hn Hp).
  rewrite Hres, He'. destruct Hst as [-> | ->]; reflexivity.
Qed.

(** X13. For a segment that is not covered, whose mask can be multiplied
    with every group matrix: with [use_pct=False] [_calculate_reward]
    returns the satisfied demand of each group, [sum(g * mask)], not
    divided by anything; the fractions it returns by default are these sums
    divided by [sum(g)]. *)
Theorem reward_unnormalised (e : Env F Rng) (seg : Z * Z)
    (mx : list (list (list F))) :
  group_od_mx (city e) = Some mx -> mx <> [] ->
  seg ∉ covered_segments e ->
  (forall g, g ∈ mx ->
     exists product, mmul g (satisfied_od_mask (city e) seg) = inr product) ->
  exists sums fractions e',
    _calculate_reward seg false e = (inr sums, e') /\
    _calculate_reward seg true e = (inr fractions, e') /\
    length sums = length mx /\
    forall i g, mx !! i = Some g ->
      exists product,
        mmul g (satisfied_od_mask (city e) seg) = inr product /\
        sums !! i = Some (msum product) /\
        fractions !! i = Some (fdiv (msum product) (msum g)).
Proof.
  intros Hmx Hne Hout Hdef.
  rewrite (_calculate_reward_fresh e seg false mx Hmx Hne Hout).
  rewrite (_calculate_reward_fresh e seg true mx Hmx Hne Hout).
  destruct (reward_loop_entries _ _ Hdef) as (r & Hr & Hlen & _ & Hent).
  cbn zeta in *. rewrite Hr.
  eexists _, _, _. split; [reflexivity|]. split; [reflexivity|].
  split; [exact Hlen|]. intros i g Hg.
  destruct (Hdef g (list_elem_of_lookup_2 _ _ _ Hg)) as [product Hprod].
  exists product. split; [exact Hprod | apply (Hent i g product Hg Hprod)].
Qed.
End LegalSteps.

(** ** Starting and ending an episode *)

Section Episodes2.
Context {F : Type} `{Float64 F} {Rng : Type} `{Generator Rng}.

(** The converse of [reset_ok]. *)
Lemma reset_returns_from (e e0 : Env F Rng) seed loc l p :
  start_of seed loc e = inr (l, e0) ->
  0 <= grid_size (city e) ->
  py_index (Z.to_nat (grid_size (city e))) (grid_to_vector (city e) l) = Some p ->
  reset seed loc e
  = (inr ({| location := l;
             location_vid := grid_to_vector (city e) l;
             location_vector :=
               <[p := fone]> (repeat fzero (Z.to_nat (grid_size (city e)))) |},
          {| segments := [];
             info_action_mask := action_mask (restarted e0 l p) |}),
     restarted e0 l p).
Proof.
  unfold start_of, reset, np_random_integers.
  cbv beta iota zeta delta [bind lift get modify ret attr raise].
  destruct (gym_reset seed e) as [[x|[]] ea] eqn:Eg; [discriminate|].
  apply gym_reset_state in Eg.
  destruct (truth_value loc) as [x|[|]]; [discriminate| |].
  - destruct (as_location loc) as [x|l0]; [discriminate|].
    intros [= -> ->] Hn Hp.
    rewrite (_update_agent_location_returns e0 l p);
      [| destruct Eg as [-> | [g ->]]; exact Hn
       | destruct Eg as [-> | [g ->]]; exact Hp].
    unfold _update_action_mask, _get_obs, _get_info.
    destruct Eg as [-> | [g ->]]; reflexivity.
  - destruct (integers (np_random ea) 0 (grid_x_size (city ea))) as [[x|ax] g1];
      [discriminate|].
    cbn [fst snd].
    change (city (set_np_random g1 ea)) with (city ea).
    change (np_random (set_np_random g1 ea)) with g1.
    destruct (integers g1 0 (grid_y_size (city ea))) as [[x|ay] g2];
      [discriminate|].
    cbn [fst snd].
    intros [= <- <-] Hn Hp.
    rewrite (_update_agent_location_returns _ (ax, ay) p);
      [| destruct Eg as [-> | [g ->]]; exact Hn
       | destruct Eg as [-> | [g ->]]; exact Hp].
    unfold _update_action_mask, _get_obs, _get_info.
    destruct Eg as [-> | [g ->]]; reflexivity.
Qed.

(** X14. On a city whose [grid_to_vector] sends the cells of the grid to
    indices from 0 up to [grid_size], [reset] returns, with the agent on a
    cell of the grid, when the seed (if any) is accepted and either the
    start location is a tuple naming a cell of the grid, or none is given,
    the grid is not empty and the generator draws within the bounds it is
    asked for. *)
Theorem reset_returns (e : Env F Rng) (seed : option Z) (loc : start_loc) :
  (forall s, seed = Some s -> exists g, seeding_np_random s = inr g) ->
  (forall p, in_grid (city e) p ->
     0 <= grid_to_vector (city e) p < grid_size (city e)) ->
  match loc with
  | LocTuple x y => in_grid (city e) (x, y)
  | LocNone =>
      0 < grid_x_size (city e) /\ 0 < grid_y_size (city e) /\
      forall g low high, low < high ->
        exists v, fst (integers g low high) = inr v /\ low <= v < high
  | LocArray _ _ => False
  end ->
  exists obs info e',
    reset seed loc e = (inr (obs, info), e')
    /\ in_grid (city e) (location obs).
Proof.
  intros Hseed Hrange Hloc.
  assert (Hstart : exists l e0, start_of seed loc e = inr (l, e0)
                                /\ in_grid (city e) l).
  { unfold start_of, np_random_integers, gym_reset.
    cbv beta iota zeta delta [bind lift get modify ret attr raise].
    destruct loc as [|x y|x y]; [| |destruct Hloc].
    - destruct Hloc as (Hx & Hy & Hgen).
      assert (Hdraws : forall ea : Env F Rng, city ea = city e ->
        exists l e0,
          match
            (let r := integers (np_random ea) 0 (grid_x_size (city ea)) in
             match fst r with
             | inr a =>
                 let r0 := integers (snd r) 0 (grid_y_size (city ea)) in
                 match fst r0 with
                 | inr a0 => (inr (a, a0), set_np_random (snd r0) (set_np_random (snd r) ea))
                 | inl x => (inl x, set_np_random (snd r0) (set_np_random (snd r) ea))
                 end
             | inl x => (inl x, set_np_random (snd r) ea)
             end)
          with
          | (inr l, e0) => inr (l, e0)
          | (inl x, _) => inl x
          end = inr (l, e0) /\ in_grid (city e) l).
      { intros ea Hc. rewrite Hc. cbv zeta.
        destruct (Hgen (np_random ea) 0 (grid_x_size (city e)) Hx) as (ax & -> & Hax).
        destruct (Hgen (snd (integers (np_random ea) 0 (grid_x_size (city e))))
                       0 (grid_y_size (city e)) Hy) as (ay & -> & Hay).
        eexists _, _. split; [reflexivity|]. split; assumption. }
      destruct seed as [s|].
      + destruct (Hseed s eq_refl) as [g ->].
        destruct (Hdraws (set_np_random g e) eq_refl) as (l & e0 & Hs & Hin).
        exists l, e0. split; [exact Hs | exact Hin].
      + destruct (Hdraws e eq_refl) as (l & e0 & Hs & Hin).
        exists l, e0. split; [exact Hs | exact Hin].
    - destruct seed as [s|].
      + destruct (Hseed s eq_refl) as [g ->].
        eexists _, _. split; [reflexivity | exact Hloc].
      + eexists _, _. split; [reflexivity | exact Hloc]. }
  destruct Hstart as (l & e0 & Hstart & Hin).
  pose proof (Hrange l Hin) as Hidx.
  eexists _, _, _. split.
  - apply (reset_returns_from e e0 seed loc l
             (Z.to_nat (grid_to_vector (city e) l)) Hstart); [lia|].
    unfold py_index. rewrite Z2Nat.id by lia. split_comparisons. reflexivity.
  - exact Hin.
Qed.

Lemma lookup_map {A B} (f : A -> B) (l : list A) (i : nat) :
  map f l !! i = option_map f (l !! i).
Proof.
  revert i. induction l as [|x l IH]; intros [|i]; cbn; auto.
Qed.

(** An entry 1 of a current mask is a legal action. *)
Lemma legal_of_allowed (e : Env F Rng) l (i : nat) d :
  mask_current e l ->
  _action_to_direction !! i = Some d ->
  allowed (city e) (covered_cells_vid e) (move l d) = true ->
  legal e (Z.of_nat i).
Proof.
  intros Hmask Hd Hok. unfold legal, py_getitem.
  pose proof (lookup_lt_Some _ _ _ Hd) as Hi. cbn in Hi.
  assert (Hidx : py_index (length _action_to_direction) (Z.of_nat i) = Some i).
  { unfold py_index. cbn [length _action_to_direction].
    change (Z.of_nat 8) with 8. split_comparisons.
    rewrite Nat2Z.id. reflexivity. }
  unfold mask_current in Hmask.
  rewrite Hmask, !length_map, Hidx, !lookup_map, Hd. cbn.
  rewrite Hok. reflexivity.
Qed.

(** X15. After a [reset] onto a cell of a grid with at least two rows or
    two columns, the mask marks at least one action legal, provided the
    grid fits int64 coordinates and [grid_to_vector] tells the cells of the
    grid apart: an agent is never stranded on its start cell. *)
Theorem reset_not_stranded (e e' : Env F Rng) seed loc obs info :
  reset seed loc e = (inr (obs, info), e') ->
  in_grid (city e) (location obs) ->
  2 <= grid_x_size (city e) \/ 2 <= grid_y_size (city e) ->
  grid_x_size (city e) <= 2 ^ 63 -> grid_y_size (city e) <= 2 ^ 63 ->
  (forall p q, in_grid (city e) p -> in_grid (city e) q ->
     grid_to_vector (city e) p = grid_to_vector (city e) q -> p = q) ->
  exists action, 0 <= action < 8 /\ legal e' action.
Proof.
  intros Hreset Hin Hsize Hx64 Hy64 Hinj.
  apply reset_fields in Hreset
    as (l & _ & Hc & _ & _ & _ & _ & Hvid & _ & Hmask & Hobs & _).
  cbn in Hobs. subst l.
  destruct (location obs) as [x y] eqn:Hl.
  destruct Hin as [Hx Hy]. cbn in Hx, Hy.
  assert (Hgo : forall (i : nat) d,
            _action_to_direction !! i = Some d ->
            -1 <= fst d <= 1 -> -1 <= snd d <= 1 -> d <> (0, 0) ->
            in_grid (city e) (x + fst d, y + snd d) ->
            exists action, 0 <= action < 8 /\ legal e' action).
  { intros i d Hd Hd1 Hd2 Hne Hcand.
    pose proof (lookup_lt_Some _ _ _ Hd) as Hi. cbn in Hi.
    exists (Z.of_nat i). split; [lia|].
    apply (legal_of_allowed e' (x, y) i d Hmask Hd).
    destruct Hcand as [Hcx Hcy]. cbn in Hcx, Hcy.
    assert (Hmove : move (x, y) d = (x + fst d, y + snd d))
      by (apply move_exact; cbn; lia).
    rewrite Hmove, Hc, Hvid. apply allowed_true. cbn [fst snd].
    repeat (split; [lia|]).
    rewrite list_elem_of_singleton. intros Heq.
    apply Hinj in Heq; [| split; cbn; lia | split; cbn; lia].
    injection Heq as Hex Hey. destruct d as [dx dy]. cbn in *.
    apply Hne. f_equal; lia. }
  destruct Hsize as [Hrows | Hcols].
  - destruct (Z_lt_le_dec (x + 1) (grid_x_size (city e))) as [Hdown | Hup].
    + apply (Hgo 4%nat (1, 0)); [reflexivity | cbn; lia | cbn; lia | discriminate |].
      split; cbn; lia.
    + apply (Hgo 0%nat (-1, 0)); [reflexivity | cbn; lia | cbn; lia | discriminate |].
      split; cbn; lia.
  - destruct (Z_lt_le_dec (y + 1) (grid_y_size (city e))) as [Hright | Hleft].
    + apply (Hgo 2%nat (0, 1)); [reflexivity | cbn; lia | cbn; lia | discriminate |].
      split; cbn; lia.
    + apply (Hgo 6%nat (0, -1)); [reflexivity | cbn; lia | cbn; lia | discriminate |].
      split; cbn; lia.
Qed.

(** In an episode of legal actions every location after the start is a
    cell of the grid, and no location is visited twice. *)
Lemma episode_cells (e : Env F Rng) visited :
  episode e visited ->
  visited <> [] /\ Forall (in_grid (city e)) (tail visited) /\ NoDup visited.
Proof.
  intros Hep.
  assert (Hgrid : visited <> [] /\ Forall (in_grid (city e)) (tail visited)).
  { induction Hep as [e0 seed loc r e l Hreset Hl
                     | e visited action r e' l' Hep IH Hlegal Hstep Hl'].
    - split; [discriminate | constructor].
    - destruct IH as [Hne IH].
      destruct (episode_invariant e visited Hep) as (_ & _ & _ & l & Hl & Hmask).
      destruct (legal_allowed e l action Hmask Hlegal) as (d & Hd & Hok).
      apply allowed_in_grid in Hok as [Hin _].
      apply step_fields in Hstep
        as (d0 & l0 & Hd0 & Hl0 & Hloc & Hc & _).
      assert (d0 = d) as -> by congruence.
      assert (l0 = l) as -> by congruence.
      assert (l' = move l d) as -> by congruence.
      split; [destruct visited; discriminate|].
      rewrite Hc. destruct visited as [|v vs]; [congruence|].
      cbn [tail app] in *. apply Forall_app. split; [exact IH|].
      constructor; [exact Hin | constructor]. }
  destruct Hgrid as [Hne Hgrid]. split; [exact Hne|]. split; [exact Hgrid|].
  destruct (episode_invariant e visited Hep) as (_ & Hvid & Hnd & _).
  rewrite Hvid in Hnd. exact (NoDup_fmap_1 _ _ Hnd).
Qed.

Lemma in_grid_cells (c : City F) p : in_grid c p -> p ∈ grid_cells c.
Proof.
  intros [Hx Hy]. destruct p as [x y]. cbn in Hx, Hy.
  apply list_elem_of_In, in_prod_iff.
  split; apply list_elem_of_In, elem_of_seqZ; lia.
Qed.

(** X16. An episode of legal actions visits at most one location more
    than the grid has cells: with any budget, it ends after at most
    [grid_x_size * grid_y_size] steps. *)
Theorem episode_length_bound (e : Env F Rng) (visited : list (Z * Z)) :
  episode e visited ->
  (length visited
   <= 1 + Z.to_nat (grid_x_size (city e)) * Z.to_nat (grid_y_size (city e)))%nat.
Proof.
  intros Hep.
  destruct (episode_cells e visited Hep) as (Hne & Hgrid & Hnd).
  destruct visited as [|v vs]; [congruence|].
  cbn [tail] in Hgrid. apply NoDup_cons in Hnd as [_ Hnd].
  assert (Hsub : vs ⊆+ grid_cells (city e)).
  { apply NoDup_submseteq; [exact Hnd|].
    intros p Hp. apply in_grid_cells.
    rewrite Forall_forall in Hgrid. auto. }
  apply submseteq_length in Hsub.
  unfold grid_cells in Hsub. rewrite length_prod, !length_seqZ in Hsub.
  cbn [length]. lia.
Qed.
End Episodes2.

(** ** The theorems at concrete inputs *)

(** Exact rational arithmetic obeys the laws. *)
#[export] Instance Q_laws : Float64Laws Q.
Proof.
  split; cbn.
  - apply Qle_refl.
  - apply Qle_trans.
  - discriminate.
  - intros a b c d _ Hab _ Hcd. apply Qplus_le_compat; assumption.
  - reflexivity.
  - intros x _. rewrite Qmult_1_r. apply Qle_refl.
  - intros x Hx. rewrite Qmult_1_r. exact Hx.
  - intros x _. rewrite Qmult_0_r. apply Qle_refl.
  - intros x _. rewrite Qmult_0_r. apply Qle_refl.
  - intros x y Hx Hxy Hy _. apply Qnot_le_lt in Hy. split.
    + apply Qle_shift_div_l; [exact Hy|]. rewrite Qmult_0_l. exact Hx.
    + apply Qle_shift_div_r; [exact Hy|]. rewrite Qmult_1_l. exact Hxy.
Qed.




Lemma demo_products (seg : Z * Z) (g : list (list Q)) :
  g ∈ [demo_od] ->
  exists product, mmul g (satisfied_od_mask (city demo_start) seg) = inr product.
Proof.
  intros Hg. apply list_elem_of_singleton in Hg. subst g.
  change (satisfied_od_mask (city demo_start) seg) with (demo_mask seg).
  eexists. apply (mmul_defined 9).
  - repeat constructor.
  - unfold demo_mask. apply Forall_map, Forall_forall. intros i _.
    rewrite length_map, length_seq. reflexivity.
  - unfold demo_mask. rewrite !length_map, length_seq. reflexivity.
Qed.

Lemma demo_step :
  step 2 demo_start
  = (inr (demo_obs, [4 # 10]%Q, false, false, demo_info), demo_next).
Proof. apply run_pair. vm_compute. reflexivity. Qed.

Lemma step_terminated_truncated_witness :
  (false = true <->
     stations_placed demo_next >= nr_stations demo_next
     \/ Forall (fun m => m = 0) (action_mask demo_next))
  /\ false = false
  /\ length (action_mask demo_next) = 8%nat
  /\ info_action_mask demo_info = action_mask demo_next
  /\ stations_placed demo_next = stations_placed demo_start + 1.
Proof.
  apply (step_terminated_truncated demo_start demo_next 2
           demo_obs [4 # 10]%Q false false demo_info).
  exact demo_step.
Defined.

Lemma demo_groups : group_od_mx (city demo_start) = Some [demo_od].
Proof. vm_compute. reflexivity. Qed.

Lemma demo_one_matrix_per_group :
  Z.of_nat (length [demo_od]) = nr_groups demo_start.
Proof. vm_compute. reflexivity. Qed.

Lemma demo_start_location : _agent_location demo_start = Some (0, 0).
Proof. vm_compute. reflexivity. Qed.

Lemma demo_start_segments : covered_segments demo_start = [].
Proof. vm_compute. reflexivity. Qed.

Lemma reward_needs_group_data_witness :
  (_calculate_reward (0, 1) true bare_start = (inl AssertionError, bare_start)
   /\ step 2 bare_start
      = (inl AssertionError,
         set_stations_placed (stations_placed bare_start + 1) bare_start))
  /\ fst (_calculate_reward (0, 1) true demo_start) <> inl AssertionError
  /\ exists e',
       (exists r, _calculate_reward (0, 1) true demo_start = (inr r, e'))
       \/ _calculate_reward (0, 1) true demo_start = (inl ValueError, e').
Proof.
  split.
  - destruct (reward_needs_group_data bare_start (0, 1) true) as [Hno _].
    destruct (Hno (or_introl eq_refl)) as [Hcalc Hstep].
    split; [exact Hcalc|].
    apply (Hstep 2 (0, 1) (0, 0)); vm_compute; reflexivity.
  - destruct (reward_needs_group_data demo_start (0, 1) true) as [_ Hsome].
    exact (Hsome demo_od [] demo_groups).
Defined.

Lemma reward_formula_witness :
  exists reward e',
    _calculate_reward (0, 1) true demo_start = (inr reward, e') /\
    length reward = length [demo_od] /\
    exists product,
      mmul demo_od (satisfied_od_mask (city demo_start) (0, 1)) = inr product /\
      reward !! 0%nat = Some (fdiv (msum product) (msum demo_od)).
Proof.
  destruct (reward_formula demo_start (0, 1) [demo_od] demo_groups)
    as (Hformula & Hreturns & _).
  - discriminate.
  - rewrite demo_start_segments. apply not_elem_of_nil.
  - destruct (Hreturns (demo_products (0, 1))) as (reward & e' & Hr).
    exists reward, e'. split; [exact Hr|].
    destruct (Hformula reward e' Hr) as [Hlen Hent].
    split; [exact Hlen|]. exact (Hent 0%nat demo_od eq_refl).
Defined.

(** The product broadcasts a 1 x 1 mask over the matrix, and refuses a
    2 x 2 mask against the 9 x 9 matrix. *)
Example mmul_broadcasts : mmul demo_od [[1%Q]] = inr demo_od.
Proof. vm_compute. reflexivity. Qed.

Example mmul_shape_mismatch :
  mmul demo_od [[1; 1]; [1; 1]]%Q = inl ValueError.
Proof. vm_compute. reflexivity. Qed.

Lemma demo_step_back :
  step 6 demo_next
  = (inr ({| location := (0, 0);
             location_vid := 0;
             location_vector := [1; 0; 0; 0; 0; 0; 0; 0; 0]%Q |},
          [0%Q], false, false,
          {| segments := [(0, 1); (1, 0); (1, 0); (0, 1)];
             info_action_mask := [0; 0; 0; 1; 1; 0; 0; 0] |}),
     after (step 6) demo_next).
Proof. apply run_pair. vm_compute. reflexivity. Qed.

Lemma no_double_credit_witness :
  _calculate_reward (0, 1) true demo_next = (inr [0%Q], demo_next)
  /\ _calculate_reward (1, 0) true demo_next = (inr [0%Q], demo_next)
  /\ [0%Q] = repeat fzero (Z.to_nat (nr_groups demo_start)).
Proof.
  destruct (no_double_credit demo_start [demo_od] demo_groups
              ltac:(discriminate) demo_one_matrix_per_group) as [_ Hback].
  destruct (Hback 2 _ demo_next (0, 0) demo_start_location demo_step)
    as (l1 & Hl1 & _ & _ & Hcalc & Hzero).
  assert (l1 = (0, 1)) as ->.
  { assert (Hl : _agent_location demo_next = Some (0, 1))
      by (vm_compute; reflexivity).
    congruence. }
  split; [apply (Hcalc (0, 1) true); left; reflexivity|].
  split; [apply (Hcalc (1, 0) true); right; reflexivity|].
  eapply (Hzero 6 (0, -1)); [| |exact demo_step_back].
  - vm_compute. reflexivity.
  - vm_compute. reflexivity.
Defined.


(** binary64: the demand of [huge_city] is finite and at least 0 with a
    total that is not at most 0, the mask is of 0 and 1 and has the shape of
    the demand matrix; the total overflows to infinity, and the reward that
    [step] returns is infinity divided by infinity. *)
(** The laws of [Float64Laws] hold of binary64 at the edge values, nan and
    the infinities included. *)
Lemma binary64_laws_at_edges :
  fle (F := PrimFloat.float) fzero fzero
  /\ fle (F := PrimFloat.float) fzero fone
  /\ fadd fzero fzero = (fzero : PrimFloat.float)
  /\ binary64_laws_on edge_values = true.
Proof. repeat split; vm_compute; reflexivity. Qed.

Lemma huge_start_reset :
  __init__ huge_city 4 0 = inr huge_fresh
  /\ reset None (LocTuple 0 0) huge_fresh
     = (inr ({| location := (0, 0);
                location_vid := 0;
                location_vector := [PrimFloat.one; PrimFloat.zero] |},
             {| segments := [];
                info_action_mask := [0; 0; 1; 0; 0; 0; 0; 0] |}),
        huge_start).
Proof.
  split; [reflexivity|].
  apply (run_pair (reset None (LocTuple 0 0)) huge_fresh).
  vm_compute. reflexivity.
Qed.


Lemma demo_episode : episode demo_next [(0, 0); (0, 1)].
Proof.
  apply (episode_step demo_start [(0, 0)] 2
           (demo_obs, [4 # 10]%Q, false, false, demo_info) demo_next (0, 1)).
  - eapply (episode_reset (fresh demo_city 4) None (LocTuple 0 0)).
    + apply run_pair. vm_compute. reflexivity.
    + exact demo_start_location.
  - vm_compute. reflexivity.
  - exact demo_step.
  - vm_compute. reflexivity.
Qed.

Lemma covered_cells_distinct_in_order_witness :
  covered_cells_gid demo_next = [(0, 0); (0, 1)]
  /\ covered_cells_vid demo_next
     = map (grid_to_vector (city demo_next)) [(0, 0); (0, 1)]
  /\ NoDup (covered_cells_vid demo_next)
  /\ NoDup (covered_cells_gid demo_next).
Proof.
  apply (covered_cells_distinct_in_order demo_next [(0, 0); (0, 1)]).
  exact demo_episode.
Defined.

Lemma location_views_consistent_witness :
  exists l vid vec p,
    _agent_location demo_next = Some l /\
    _agent_location_vid demo_next = Some vid /\
    _agent_location_vector demo_next = Some vec /\
    demo_obs = {| location := l; location_vid := vid; location_vector := vec |} /\
    vid = grid_to_vector (city demo_next) l /\
    Z.of_nat (length vec) = grid_size (city demo_next) /\
    py_index (length vec) vid = Some p /\
    (0 <= vid -> p = Z.to_nat vid) /\
    (forall k, (k < length vec)%nat ->
       vec !! k = Some (if decide (k = p) then fone else fzero)) /\
    (fadd fzero fzero = fzero -> fadd fzero fone = fone ->
     fadd fone fzero = fone -> fsum vec = fone).
Proof.
  apply (location_views_consistent demo_start demo_next demo_obs).
  right. exists 2, [4 # 10]%Q, false, false, demo_info. exact demo_step.
Defined.

Lemma reset_seed_deterministic_witness :
  let r1 := reset (Some 5) LocNone (fresh demo_city 4) in
  let r2 := reset (Some 5) LocNone demo_next in
  fst r1 = fst r2
  /\ (forall r, fst r1 = inr r ->
        _agent_location (snd r1) = _agent_location (snd r2)
        /\ _agent_location_vid (snd r1) = _agent_location_vid (snd r2)
        /\ _agent_location_vector (snd r1) = _agent_location_vector (snd r2)
        /\ stations_placed (snd r1) = stations_placed (snd r2)
        /\ covered_cells_vid (snd r1) = covered_cells_vid (snd r2)
        /\ covered_cells_gid (snd r1) = covered_cells_gid (snd r2)
        /\ covered_segments (snd r1) = covered_segments (snd r2)
        /\ action_mask (snd r1) = action_mask (snd r2)
        /\ np_random (snd r1) = np_random (snd r2)).
Proof.
  apply (reset_seed_deterministic (fresh demo_city 4) demo_next 5).
  - reflexivity.
  - reflexivity.
Defined.

(** Outside the guarantees of the mask. [step] does not refuse an action
    that the mask marks 0: from (0, 0) the move to the left returns, the
    index of the location (0, -1) is -1 and selects the last entry of the
    one-hot vector. A start location outside the grid makes [reset] raise
    IndexError after the vector has been replaced by zeros. *)
Example step_off_grid :
  fst (step 6 demo_start)
  = inr ({| location := (0, -1);
            location_vid := -1;
            location_vector := [0; 0; 0; 0; 0; 0; 0; 0; 1]%Q |},
         [4 # 10]%Q, false, false,
         {| segments := [(0, -1); (-1, 0)];
            info_action_mask := [0; 0; 0; 1; 0; 0; 0; 0] |}).
Proof. vm_compute. reflexivity. Qed.

Example reset_off_grid :
  fst (reset None (LocTuple 3 3) (fresh demo_city 4)) = inl IndexError
  /\ _agent_location_vector (after (reset None (LocTuple 3 3)) (fresh demo_city 4))
     = Some [0; 0; 0; 0; 0; 0; 0; 0; 0]%Q.
Proof. split; vm_compute; reflexivity. Qed.

(** ** The further properties at concrete inputs *)

Lemma demo_reset :
  reset None (LocTuple 0 0) (fresh demo_city 4)
  = (inr (demo_obs0, demo_info0), demo_start).
Proof. apply run_pair. vm_compute. reflexivity. Qed.

Lemma demo_history0 : history demo_start 0.
Proof. exact (history_reset _ _ _ _ _ demo_reset). Qed.

Lemma demo_history1 : history demo_next 1.
Proof. exact (history_step _ _ _ _ _ demo_history0 demo_step). Qed.

Lemma demo_legal : legal demo_start 2.
Proof. vm_compute. reflexivity. Qed.

Lemma demo_next_segments : covered_segments demo_next = [(0, 1); (1, 0)].
Proof. vm_compute. reflexivity. Qed.

Lemma demo_index_range (p : Z * Z) :
  in_grid (city demo_start) p ->
  0 <= grid_to_vector (city demo_start) p < grid_size (city demo_start).
Proof.
  change (city demo_start) with demo_city.
  intros [Hx Hy]. cbn in Hx, Hy. cbn [grid_to_vector grid_size demo_city].
  unfold row_major. rewrite !wrap64_id; rewrite ?wrap64_id; lia.
Qed.

Lemma demo_index_inj (p q : Z * Z) :
  in_grid (city demo_start) p -> in_grid (city demo_start) q ->
  grid_to_vector (city demo_start) p = grid_to_vector (city demo_start) q ->
  p = q.
Proof.
  change (city demo_start) with demo_city.
  intros [Hpx Hpy] [Hqx Hqy]. cbn in Hpx, Hpy, Hqx, Hqy.
  cbn [grid_to_vector demo_city]. unfold row_major.
  rewrite !wrap64_id; rewrite ?wrap64_id; try lia.
  destruct p as [px py], q as [qx qy]. cbn in *. intros Heq. f_equal; lia.
Qed.

Lemma counter_draws (g low high : Z) :
  low < high ->
  exists v, fst (integers g low high) = inr v /\ low <= v < high.
Proof.
  intros Hlh. cbn. destruct (Z.leb_spec high low); [lia|].
  eexists. split; [reflexivity|].
  pose proof (Z.mod_pos_bound g (high - low)). lia.
Qed.

Lemma reset_starts_episode_witness :
  stations_placed demo_start = 1
  /\ _agent_location demo_start = Some (location demo_obs0)
  /\ covered_cells_gid demo_start = [location demo_obs0]
  /\ covered_cells_vid demo_start
     = [grid_to_vector (city (fresh demo_city 4)) (location demo_obs0)]
  /\ covered_segments demo_start = []
  /\ segments demo_info0 = []
  /\ info_action_mask demo_info0 = action_mask demo_start
  /\ city demo_start = city (fresh demo_city 4)
  /\ nr_stations demo_start = nr_stations (fresh demo_city 4)
  /\ od_queries demo_start = od_queries (fresh demo_city 4).
Proof.
  exact (reset_starts_episode (fresh demo_city 4) demo_start None
           (LocTuple 0 0) demo_obs0 demo_info0 demo_reset).
Defined.

Lemma step_appends_witness :
  exists l d,
    _agent_location demo_start = Some l /\
    py_getitem _action_to_direction 2 = inr d /\
    location demo_obs = move l d /\
    covered_segments demo_next
    = covered_segments demo_start
        ++ [(grid_to_vector (city demo_start) l,
             grid_to_vector (city demo_start) (move l d));
            (grid_to_vector (city demo_start) (move l d),
             grid_to_vector (city demo_start) l)] /\
    length (covered_segments demo_next)
    = (length (covered_segments demo_start) + 2)%nat /\
    covered_cells_vid demo_next
    = covered_cells_vid demo_start
        ++ [grid_to_vector (city demo_start) (move l d)] /\
    covered_cells_gid demo_next = covered_cells_gid demo_start ++ [move l d] /\
    segments demo_info = covered_segments demo_next.
Proof.
  exact (step_appends demo_start demo_next 2 demo_obs [4 # 10]%Q
           false false demo_info demo_step).
Defined.

Lemma history_counters_witness :
  stations_placed demo_next = 1 + Z.of_nat 1
  /\ length (covered_cells_gid demo_next) = 2%nat
  /\ length (covered_cells_vid demo_next) = 2%nat
  /\ covered_cells_vid demo_next
     = map (grid_to_vector (city demo_next)) (covered_cells_gid demo_next)
  /\ length (covered_segments demo_next) = (2 * 1)%nat.
Proof. exact (history_counters demo_next 1 demo_history1). Defined.

Lemma covered_segments_symmetric_witness :
  (1, 0) ∈ covered_segments demo_next
  /\ 0 ∈ covered_cells_vid demo_next /\ 1 ∈ covered_cells_vid demo_next.
Proof.
  apply (covered_segments_symmetric demo_next 1 0 1 demo_history1).
  rewrite demo_next_segments. apply elem_of_cons. left. reflexivity.
Defined.

Lemma budget_ends_episode_witness :
  false = true <->
    nr_stations demo_start <= Z.of_nat 0 + 2
    \/ Forall (fun m => m = 0) (action_mask demo_next).
Proof.
  exact (budget_ends_episode demo_start demo_next 0 2 demo_obs [4 # 10]%Q
           false false demo_info demo_history0 demo_step).
Defined.

Lemma step_negative_action_witness :
  step (-6) demo_start = step (-6 + 8) demo_start.
Proof. apply (step_negative_action demo_start (-6)). lia. Defined.

Lemma step_rejects_early_witness :
  step 9 (fresh demo_city 4) = (inl IndexError, fresh demo_city 4)
  /\ step 2 (fresh demo_city 4) = (inl AttributeError, fresh demo_city 4).
Proof.
  split.
  - apply (proj1 (step_rejects_early (fresh demo_city 4) 9)). lia.
  - apply (proj1 (proj2 (step_rejects_early (fresh demo_city 4) 2)));
      [lia | reflexivity].
Defined.

Lemma step_off_vector_raises_witness :
  exists e',
    step 4 demo_corner = (inl IndexError, e') /\
    stations_placed e' = stations_placed demo_corner + 1 /\
    covered_segments e'
    = covered_segments demo_corner
        ++ [(grid_to_vector (city demo_corner) (2, 2),
             grid_to_vector (city demo_corner) (move (2, 2) (1, 0)));
            (grid_to_vector (city demo_corner) (move (2, 2) (1, 0)),
             grid_to_vector (city demo_corner) (2, 2))] /\
    covered_cells_vid e'
    = covered_cells_vid demo_corner
        ++ [grid_to_vector (city demo_corner) (move (2, 2) (1, 0))] /\
    covered_cells_gid e' = covered_cells_gid demo_corner ++ [move (2, 2) (1, 0)] /\
    _agent_location e' = Some (move (2, 2) (1, 0)) /\
    _agent_location_vid e'
    = Some (grid_to_vector (city demo_corner) (move (2, 2) (1, 0))) /\
    _agent_location_vector e'
    = Some (repeat fzero (Z.to_nat (grid_size (city demo_corner)))) /\
    action_mask e' = action_mask demo_corner.
Proof.
  apply (step_off_vector_raises demo_corner
           (snd (_calculate_reward
                   (grid_to_vector (city demo_corner) (2, 2),
                    grid_to_vector (city demo_corner) (move (2, 2) (1, 0)))
                   true
                   (set_stations_placed (stations_placed demo_corner + 1)
                      demo_corner)))
           4 (1, 0) (2, 2) [0 # 10]%Q).
  - vm_compute. reflexivity.
  - vm_compute. reflexivity.
  - apply run_pair. vm_compute. reflexivity.
  - vm_compute. discriminate.
  - vm_compute. reflexivity.
Defined.

Lemma legal_step_in_grid_witness :
  in_grid (city demo_start) (location demo_obs)
  /\ grid_to_vector (city demo_start) (location demo_obs)
     ∉ covered_cells_vid demo_start.
Proof.
  exact (legal_step_in_grid demo_start demo_next 0 2 demo_obs [4 # 10]%Q
           false false demo_info demo_history0 demo_legal demo_step).
Defined.

Lemma legal_step_rewarded_witness :
  exists l mx,
    _agent_location demo_start = Some l /\
    group_od_mx (city demo_start) = Some mx /\
    (let seg := (grid_to_vector (city demo_start) l,
                 grid_to_vector (city demo_start) (location demo_obs)) in
     (seg ∉ covered_segments demo_start) /\
     od_queries demo_next = od_queries demo_start ++ [seg] /\
     length [4 # 10]%Q = length mx /\
     forall i g, mx !! i = Some g ->
       exists product,
         mmul g (satisfied_od_mask (city demo_start) seg) = inr product /\
         [4 # 10]%Q !! i = Some (fdiv (msum product) (msum g))).
Proof.
  exact (legal_step_rewarded demo_start demo_next 0 2 demo_obs [4 # 10]%Q
           false false demo_info demo_history0 demo_legal demo_step).
Defined.

Lemma legal_step_returns_witness :
  exists r e', step 2 demo_start = (inr r, e').
Proof.
  exact (legal_step_returns demo_start 0 2 demo_od [] demo_history0 demo_legal
           demo_groups demo_products demo_index_range).
Defined.

Lemma mask_is_advisory_witness :
  step 2 (set_action_mask [] demo_start)
  = (inr (demo_obs, [4 # 10]%Q, false, false, demo_info), demo_next).
Proof.
  exact (mask_is_advisory demo_start demo_next 2 _ [] demo_step).
Defined.

Lemma reward_unnormalised_witness :
  exists sums fractions e',
    _calculate_reward (0, 1) false demo_start = (inr sums, e') /\
    _calculate_reward (0, 1) true demo_start = (inr fractions, e') /\
    length sums = length [demo_od] /\
    forall i g, [demo_od] !! i = Some g ->
      exists product,
        mmul g (satisfied_od_mask (city demo_start) (0, 1)) = inr product /\
        sums !! i = Some (msum product) /\
        fractions !! i = Some (fdiv (msum product) (msum g)).
Proof.
  apply (reward_unnormalised demo_start (0, 1) [demo_od] demo_groups).
  - discriminate.
  - rewrite demo_start_segments. apply not_elem_of_nil.
  - exact (demo_products (0, 1)).
Defined.

Lemma reset_returns_witness :
  exists obs info e',
    reset (Some 5) LocNone demo_start = (inr (obs, info), e')
    /\ in_grid (city demo_start) (location obs).
Proof.
  apply (reset_returns demo_start (Some 5) LocNone).
  - intros s [= <-]. exists 5. reflexivity.
  - exact demo_index_range.
  - split; [reflexivity|]. split; [reflexivity|]. exact counter_draws.
Defined.

Lemma reset_not_stranded_witness :
  exists action, 0 <= action < 8 /\ legal demo_start action.
Proof.
  apply (reset_not_stranded (fresh demo_city 4) demo_start None (LocTuple 0 0)
           demo_obs0 demo_info0 demo_reset).
  - split; cbn; lia.
  - left. cbn. lia.
  - cbn. lia.
  - cbn. lia.
  - exact demo_index_inj.
Defined.

Lemma episode_length_bound_witness :
  (length [(0, 0); (0, 1)]
   <= 1 + Z.to_nat (grid_x_size (city demo_next))
        * Z.to_nat (grid_y_size (city demo_next)))%nat.
Proof. exact (episode_length_bound demo_next [(0, 0); (0, 1)] demo_episode). Defined.
